(** * Knowledge-base search engine: chunker and RAG pipeline

    A shallow embedding of [backend/document_utils.py] (the chunker
    [DocumentParser.chunk_text]) and of [backend/rag.py] (the class
    [RAGSystem]), together with the properties of the pipeline.

    Conventions.
    - Python [int] is [Z] (unbounded).
    - Python [str] is [list ascii]; a character is a code point in the
      range U+0000..U+00FF.
    - Python calls that can raise are computations in a state-and-exception
      monad over the object's fields and the disk. *)

From Stdlib Require Import ZArith Lia Ascii String List.
From stdpp Require Import base list gmap strings pretty sorting.

Local Open Scope Z_scope.

Abbreviation str := (list ascii).

(** A literal. *)
Definition py (s : string) : str := list_ascii_of_string s.

(** The line feed, written ["\n"] in the source. *)
Definition nl : str := [ascii_of_nat 10].

(** ** Built-in string operations *)

Module PyStr.

Definition len (s : str) : Z := Z.of_nat (length s).

(** Index adjustment of a slice bound: a negative bound counts from the
    end, and every bound is clipped to [0, n]. *)
Definition adjust (n i : Z) : Z :=
  if i <? 0 then Z.max 0 (i + n) else Z.min i n.

(** [s[a:b]] *)
Definition slice (s : str) (a b : Z) : str :=
  let a' := adjust (len s) a in
  let b' := adjust (len s) b in
  take (Z.to_nat (b' - a')) (drop (Z.to_nat a') s).

(** [s[:n]] for a literal [n >= 0]. *)
Definition prefix (s : str) (n : Z) : str := slice s 0 n.

Fixpoint startswith (s sub : str) : bool :=
  match sub, s with
  | [], _ => true
  | _ :: _, [] => false
  | c :: sub', c' :: s' => if decide (c = c') then startswith s' sub' else false
  end.

(** Offset of the last occurrence of [sub] lying inside [w], scanning
    [w] from offset [i] with [acc] the last occurrence seen so far. *)
Fixpoint last_occurrence (sub w : str) (i : nat) (acc : option nat) : option nat :=
  match w with
  | [] => if startswith [] sub then Some i else acc
  | _ :: w' =>
      last_occurrence sub w' (S i) (if startswith w sub then Some i else acc)
  end.

(** [s.rfind(sub, a, b)]: the highest index where [sub] occurs inside
    [s[a:b]], or [-1]. The start bound is not clipped from above. *)
Definition rfind (s sub : str) (a b : Z) : Z :=
  let n := len s in
  let b' := if n <? b then n else if b <? 0 then Z.max 0 (b + n) else b in
  let a' := if a <? 0 then Z.max 0 (a + n) else a in
  if b' <? a' then -1
  else
    match last_occurrence sub (take (Z.to_nat (b' - a')) (drop (Z.to_nat a') s)) 0 None with
    | Some i => a' + Z.of_nat i
    | None => -1
    end.

(** [c.isspace()] on the code points below 256. *)
Definition isspace (c : ascii) : bool :=
  let n := Z.of_nat (nat_of_ascii c) in
  ((9 <=? n) && (n <=? 13)) || ((28 <=? n) && (n <=? 32))
  || (n =? 133) || (n =? 160).

Fixpoint lstrip (s : str) : str :=
  match s with
  | c :: s' => if isspace c then lstrip s' else s
  | [] => []
  end.

Definition rstrip (s : str) : str := reverse (lstrip (reverse s)).

(** [s.strip()] *)
Definition strip (s : str) : str := rstrip (lstrip s).

(** Truth value of a string: non-empty. *)
Definition truthy (s : str) : bool :=
  match s with [] => false | _ :: _ => true end.

(** [sep.join(parts)] *)
Fixpoint join (sep : str) (parts : list str) : str :=
  match parts with
  | [] => []
  | [p] => p
  | p :: rest => p ++ sep ++ join sep rest
  end.

End PyStr.

(** ** Outcomes of calls *)

(** An exception, identified by the name of its class. *)
Inductive exn : Type := Exn (class_name : string).

Inductive outcome (A : Type) : Type :=
| Returned (a : A)
| Raised (e : exn).
Arguments Returned {A} a.
Arguments Raised {A} e.

(** ** [DocumentParser.chunk_text] *)

Module DocumentParser.
Import PyStr.

Definition max_iterations : Z := 10000.

(** The sentence delimiters, in the order the source tries them. *)
Definition delimiters : list str :=
  [py ". "; py "." ++ nl; py "! "; py "!" ++ nl; py "? "; py "?" ++ nl].

(** The [for delimiter in ...] loop: [Some end] when it breaks. *)
Fixpoint sentence_end (text : str) (ds : list str) (start end_ : Z) : option Z :=
  match ds with
  | [] => None
  | delimiter :: ds' =>
      let boundary := rfind text delimiter start end_ in
      if boundary =? -1 then sentence_end text ds' start end_
      else Some (boundary + len delimiter)
  end.

(** The value of [end] when the slice is taken. *)
Definition chunk_end (text : str) (chunk_size start : Z) : Z :=
  let end_ := start + chunk_size in
  if end_ <? len text then
    match sentence_end text delimiters start end_ with
    | Some e => e
    | None =>
        let boundary := rfind text (py " ") start end_ in
        if boundary =? -1 then end_ else boundary + 1
    end
  else end_.

(** The loop variables. *)
Record loop_state : Type := LoopState {
  start : Z;
  iteration_count : Z;
  chunks : list str
}.

(** The value of [start] after the iteration. *)
Definition next_start (text : str) (chunk_size overlap start end_ : Z) : Z :=
  if end_ <=? start then start + Z.max 1 chunk_size
  else if end_ <? len text then end_ - overlap else len text.

(** One iteration of the [while] body. *)
Definition chunk_step (text : str) (chunk_size overlap : Z) (st : loop_state) : loop_state :=
  let end_ := chunk_end text chunk_size (start st) in
  let chunk := strip (slice text (start st) end_) in
  {| start := next_start text chunk_size overlap (start st) end_;
     iteration_count := iteration_count st + 1;
     chunks := if truthy chunk then chunks st ++ [chunk] else chunks st |}.

(** The [while] condition. *)
Definition loop_guard (text : str) (st : loop_state) : bool :=
  (start st <? len text) && (iteration_count st <? max_iterations).

(** The [while] loop; [None] when [fuel] iterations do not reach the
    exit. *)
Fixpoint chunk_loop (fuel : nat) (text : str) (chunk_size overlap : Z)
    (st : loop_state) : option loop_state :=
  if loop_guard text st then
    match fuel with
    | O => None
    | S fuel' => chunk_loop fuel' text chunk_size overlap (chunk_step text chunk_size overlap st)
    end
  else Some st.

Definition initial_state : loop_state :=
  {| start := 0; iteration_count := 0; chunks := [] |}.

(** Enough for every run: the guard fails once the counter reaches
    [max_iterations]. *)
Definition enough_fuel : nat := S (Z.to_nat max_iterations).

(** The state in which the function leaves its loop ([initial_state]
    when [text] is empty and the loop is not entered). *)
Definition chunk_text_run (fuel : nat) (text : str) (chunk_size overlap : Z)
    : option loop_state :=
  if truthy text then chunk_loop fuel text chunk_size overlap initial_state
  else Some initial_state.

(** [chunk_text(text, chunk_size, overlap)]: the list returned. *)
Definition chunk_text (text : str) (chunk_size overlap : Z) : list str :=
  match chunk_text_run enough_fuel text chunk_size overlap with
  | Some st => chunks st
  | None => []
  end.

(** Number of iterations of the loop in a call. *)
Definition chunk_text_iterations (text : str) (chunk_size overlap : Z) : Z :=
  match chunk_text_run enough_fuel text chunk_size overlap with
  | Some st => iteration_count st
  | None => 0
  end.

(** The call as a whole: the body has no [raise]. *)
Definition chunk_text_call (text : str) (chunk_size overlap : Z) : outcome (list str) :=
  Returned (chunk_text text chunk_size overlap).

End DocumentParser.

(** ** The vector index *)

(** An embedding vector. The components stand for the [float32] entries
    of the arrays; the pipeline only stores them and orders distances. *)
Abbreviation vector := (list Z).

Module faiss.
Import PyStr.

Record IndexFlatL2 : Type := Index {
  d : Z;
  xb : list vector
}.

(** [faiss.IndexFlatL2(d)] *)
Definition new (dim : Z) : IndexFlatL2 := {| d := dim; xb := [] |}.

(** [index.ntotal] *)
Definition ntotal (index : IndexFlatL2) : Z := Z.of_nat (length (xb index)).

(** Modelled from the spec: the library behind [index.add] is not part of
    the sources; section 4.2 has [insert] append the vectors in the given
    order and fail with [DimensionMismatchError] unless every vector has
    the dimension of the index. *)
Definition add (index : IndexFlatL2) (vectors : list vector) : outcome IndexFlatL2 :=
  if forallb (fun v => Z.of_nat (length v) =? d index) vectors
  then Returned {| d := d index; xb := xb index ++ vectors |}
  else Raised (Exn "DimensionMismatchError").

Fixpoint squared_distance (u v : vector) : Z :=
  match u, v with
  | a :: u', b :: v' => (a - b) * (a - b) + squared_distance u' v'
  | _, _ => 0
  end.

(** Insertion of a hit in a ranking ordered by distance, then position. *)
Fixpoint insert_hit (h : Z * Z) (ranked : list (Z * Z)) : list (Z * Z) :=
  match ranked with
  | [] => [h]
  | h' :: rest =>
      if (h.2 <? h'.2) || ((h.2 =? h'.2) && (h.1 <? h'.1))
      then h :: ranked
      else h' :: insert_hit h rest
  end.

Fixpoint hits_from (position : Z) (query : vector) (vs : list vector) : list (Z * Z) :=
  match vs with
  | [] => []
  | v :: vs' => (position, squared_distance query v) :: hits_from (position + 1) query vs'
  end.

(** Modelled from the spec: the library behind [index.search] is not
    part of the sources; section 4.2 has [search] return the pairs
    (position, distance) by ascending squared Euclidean distance, ties
    broken by the smaller position, [min(k, size)] of them. The entry
    of the call is the library's own: its Python wrapper asserts
    [d == self.d] and [k > 0] before it searches, so a query of another
    dimension and a [k <= 0] raise [AssertionError], where section 4.2
    has the empty sequence for [k <= 0]. *)
Definition search (index : IndexFlatL2) (query : vector) (k : Z) : outcome (list (Z * Z)) :=
  if negb (Z.of_nat (length query) =? d index) then Raised (Exn "AssertionError")
  else if negb (0 <? k) then Raised (Exn "AssertionError")
  else Returned (take (Z.to_nat k) (foldr insert_hit [] (hits_from 0 query (xb index)))).

End faiss.

(** ** [RAGSystem] *)

(** A stored chunk record: the dict with keys [text], [source] and
    [chunk_id]. *)
Record document : Type := Document {
  text : str;
  source : str;
  chunk_id : Z
}.

(** A retrieved record: a copy of the stored dict with the key [score]
    added. *)
Record scored_document : Type := Scored {
  doc : document;
  score : Z
}.

(** The fields of the object. [hf_client] is [None] both when the
    attribute is missing and when it holds [None]. *)
Record RAGSystem : Type := RAG {
  chunk_size : Z;
  chunk_overlap : Z;
  embedding_dim : Z;
  index : faiss.IndexFlatL2;
  documents : list document;
  llm_provider : str;
  hf_client : option str
}.

(** A snapshot directory: the files [index.faiss] and [documents.json],
    each absent or holding the value written to it. The JSON text is kept
    as the list of records it encodes. *)
Record directory : Type := Dir {
  index_faiss : option faiss.IndexFlatL2;
  documents_json : option (list document)
}.

(** The disk: the snapshot directories that exist, by path. Storage
    faults (a full or read-only disk, a missing parent directory) are
    outside the model. *)
Abbreviation disk := (gmap str directory).

(** The external services: the sentence encoder on one text, and the two
    generation clients on a prompt. [openai_chat_completion] is the text of
    the first choice of the reply and [hf_text_generation] the generated
    text. Each may raise; for the chat client an exception stands for any
    failure up to the text of the reply, a reply without text included. *)
Class Backends : Type := {
  embed : str -> outcome vector;
  openai_chat_completion : str -> outcome str;
  hf_text_generation : str -> outcome str
}.

(** *** The monad of method bodies *)

Definition world : Type := RAGSystem * disk.

Definition M (A : Type) : Type := world -> outcome A * world.

Definition ret {A} (a : A) : M A := fun w => (Returned a, w).

Definition raise {A} (e : exn) : M A := fun w => (Raised e, w).

Definition bind {A B} (m : M A) (f : A -> M B) : M B :=
  fun w =>
    match m w with
    | (Returned a, w') => f a w'
    | (Raised e, w') => (Raised e, w')
    end.

(** [try: m except Exception as e: handler e] *)
Definition try_except {A} (m : M A) (handler : exn -> M A) : M A :=
  fun w =>
    match m w with
    | (Returned a, w') => (Returned a, w')
    | (Raised e, w') => handler e w'
    end.

(** A call of an external function. *)
Definition call {A} (r : outcome A) : M A := fun w => (r, w).

Definition self : M RAGSystem := fun w => (Returned w.1, w).

Definition set_index (i : faiss.IndexFlatL2) : M unit :=
  fun w =>
    (Returned tt,
     (RAG (chunk_size w.1) (chunk_overlap w.1) (embedding_dim w.1) i
          (documents w.1) (llm_provider w.1) (hf_client w.1), w.2)).

Definition set_documents (ds : list document) : M unit :=
  fun w =>
    (Returned tt,
     (RAG (chunk_size w.1) (chunk_overlap w.1) (embedding_dim w.1) (index w.1)
          ds (llm_provider w.1) (hf_client w.1), w.2)).

Definition read_disk : M disk := fun w => (Returned w.2, w).

Definition write_disk (dk : disk) : M unit := fun w => (Returned tt, (w.1, dk)).

Notation "'do' x <- m ; k" := (bind m (fun x => k))
  (at level 10, x name, m at level 100, k at level 200).
Notation "'run' m ; k" := (bind m (fun _ => k))
  (at level 10, m at level 100, k at level 200).

(** [l[i]] on a list: a negative index counts from the end. *)
Definition getitem {A} (l : list A) (i : Z) : outcome A :=
  let j := if i <? 0 then i + Z.of_nat (length l) else i in
  if (0 <=? j) && (j <? Z.of_nat (length l)) then
    match l !! Z.to_nat j with
    | Some x => Returned x
    | None => Raised (Exn "IndexError")
    end
  else Raised (Exn "IndexError").

(** The decimal form of an integer in an f-string. *)
Definition str_of_int (n : Z) : str := py (pretty n).

Section RAGSystem.
Context `{Backends}.
Import PyStr.

(** [self.embedding_model.encode(texts, ...)]: the array with one row
    per text, in order. *)
Fixpoint encode (texts : list str) : outcome (list vector) :=
  match texts with
  | [] => Returned []
  | t :: texts' =>
      match embed t with
      | Raised e => Raised e
      | Returned v =>
          match encode texts' with
          | Raised e => Raised e
          | Returned vs => Returned (v :: vs)
          end
      end
  end.

(** The object after [__init__], given the dimension reported by the
    embedding model and the environment's provider and client. *)
Definition init (chunk_size chunk_overlap embedding_dim : Z)
    (llm_provider : str) (hf_client : option str) : RAGSystem :=
  {| chunk_size := chunk_size;
     chunk_overlap := chunk_overlap;
     embedding_dim := embedding_dim;
     index := faiss.new embedding_dim;
     documents := [];
     llm_provider := llm_provider;
     hf_client := hf_client |}.

(** The records appended for [enumerate(chunks)], counting from [i]. *)
Fixpoint chunk_records (source : str) (i : Z) (chunks : list str) : list document :=
  match chunks with
  | [] => []
  | chunk :: chunks' =>
      {| text := chunk; source := source; chunk_id := i |}
        :: chunk_records source (i + 1) chunks'
  end.

(** [self.index.add(embeddings_array)] *)
Definition index_add (embeddings : list vector) : M unit :=
  do s <- self;
  match faiss.add (index s) embeddings with
  | Returned index' => set_index index'
  | Raised e => raise e
  end.

Definition add_document (text source : str) : M unit :=
  do s <- self;
  let chunks := DocumentParser.chunk_text text (chunk_size s) (chunk_overlap s) in
  match chunks with
  | [] => ret tt
  | _ :: _ =>
      do embeddings <- try_except (call (encode chunks)) (fun e => raise e);
      run try_except (index_add embeddings) (fun e => raise e);
      do s' <- self;
      set_documents (documents s' ++ chunk_records source 0 chunks)
  end.

(** The loop over [enumerate(indices[0])]. *)
Fixpoint collect_results (documents : list document) (hits : list (Z * Z))
    : outcome (list scored_document) :=
  match hits with
  | [] => Returned []
  | (idx, distance) :: hits' =>
      if idx <? Z.of_nat (length documents) then
        match getitem documents idx with
        | Raised e => Raised e
        | Returned d =>
            match collect_results documents hits' with
            | Raised e => Raised e
            | Returned results => Returned ({| doc := d; score := distance |} :: results)
            end
        end
      else collect_results documents hits'
  end.

Definition retrieve (query : str) (top_k : Z) : M (list scored_document) :=
  do s <- self;
  if Z.of_nat (length (documents s)) =? 0 then ret []
  else
    do query_embedding <- call (encode [query]);
    match query_embedding with
    | [] => raise (Exn "IndexError")
    | q :: _ =>
        do hits <- call (faiss.search (index s) q
                           (Z.min top_k (Z.of_nat (length (documents s)))));
        call (collect_results (documents s) hits)
    end.

(** One block of the context: the f-string of the comprehension. *)
Definition context_block (sd : scored_document) : str :=
  py "[Source: " ++ source (doc sd) ++ py ", Chunk " ++ str_of_int (chunk_id (doc sd))
    ++ py "]" ++ nl ++ text (doc sd).

Definition build_prompt (query : str) (context_docs : list scored_document) : str :=
  py "Using the following documents from the knowledge base, answer the user's question succinctly and accurately."
    ++ nl ++ nl
    ++ py "Context from documents:" ++ nl
    ++ join (nl ++ nl) (map context_block context_docs) ++ nl ++ nl
    ++ py "User's question: " ++ query ++ nl ++ nl
    ++ py "Instructions:" ++ nl
    ++ py "- Provide a clear, concise answer based on the context" ++ nl
    ++ py "- If the context doesn't contain enough information, say so" ++ nl
    ++ py "- Cite sources when possible (e.g., " ++ [ascii_of_nat 34]
    ++ py "According to [source]..." ++ [ascii_of_nat 34] ++ py ")" ++ nl
    ++ py "- Be factual and don't make up information" ++ nl ++ nl
    ++ py "Answer:".

(** The loop of [_fallback_answer], with [i] the number of the next
    item. *)
Fixpoint fallback_items (i : Z) (context_docs : list scored_document) : str :=
  match context_docs with
  | [] => []
  | sd :: rest =>
      let preview :=
        if 300 <? len (text (doc sd))
        then prefix (text (doc sd)) 300 ++ py "..."
        else text (doc sd) in
      str_of_int i ++ py ". From " ++ source (doc sd) ++ py ":" ++ nl
        ++ preview ++ nl ++ nl ++ fallback_items (i + 1) rest
  end.

Definition _fallback_answer (query : str) (context_docs : list scored_document) : str :=
  py "Based on the available documents:" ++ nl ++ nl ++ fallback_items 1 context_docs.

Definition no_information : str :=
  py "I couldn't find any relevant information in the knowledge base to answer your question.".

Definition synthesize_answer (query : str) (context_docs : list scored_document) : M str :=
  match context_docs with
  | [] => ret no_information
  | _ :: _ =>
      let prompt := build_prompt query context_docs in
      try_except
        (do s <- self;
         if decide (llm_provider s = py "openai") then
           do content <- call (openai_chat_completion prompt);
           ret (strip content)
         else if decide (llm_provider s = py "huggingface") then
           match hf_client s with
           | None => ret (_fallback_answer query context_docs)
           | Some _ =>
               do response <- call (hf_text_generation prompt);
               ret (strip response)
           end
         else ret (_fallback_answer query context_docs))
        (fun e => ret (_fallback_answer query context_docs))
  end.

Definition get_document_count : M Z :=
  do s <- self; ret (Z.of_nat (length (documents s))).

(** [list(set(...))]: the distinct sources, in no particular order. *)
Definition list_documents : M (gset str) :=
  do s <- self; ret (list_to_set (map source (documents s))).

Definition clear : M unit :=
  do s <- self;
  run set_index (faiss.new (embedding_dim s));
  set_documents [].

(** [path_obj.mkdir(exist_ok=True)] *)
Definition mkdir_exist_ok (path : str) : M unit :=
  do dk <- read_disk;
  match dk !! path with
  | Some _ => ret tt
  | None => write_disk (<[path := Dir None None]> dk)
  end.

(** Writing one file of the directory at [path]. *)
Definition write_file (path : str) (update : directory -> directory) : M unit :=
  do dk <- read_disk;
  match dk !! path with
  | Some dir => write_disk (<[path := update dir]> dk)
  | None => raise (Exn "FileNotFoundError")
  end.

Definition save_index (path : str) : M unit :=
  do s <- self;
  run mkdir_exist_ok path;
  run write_file path (fun dir => Dir (Some (index s)) (documents_json dir));
  write_file path (fun dir => Dir (index_faiss dir) (Some (documents s))).

Definition load_index (path : str) : M unit :=
  do dk <- read_disk;
  match dk !! path with
  | None => ret tt
  | Some dir =>
      match index_faiss dir with
      | None => raise (Exn "RuntimeError")
      | Some index' =>
          run set_index index';
          match documents_json dir with
          | None => raise (Exn "FileNotFoundError")
          | Some documents' => set_documents documents'
          end
      end
  end.

End RAGSystem.

(** ** Sequences of mutations *)

Inductive operation : Type :=
| Ingest (text source : str)
| ClearAll.

Section Operations.
Context `{Backends}.

Definition perform (op : operation) : M unit :=
  match op with
  | Ingest text source => add_document text source
  | ClearAll => clear
  end.

(** The operations one after the other; a call that raises leaves the
    object as it is at the raise, and the next call proceeds from there. *)
Fixpoint execute (ops : list operation) (w : world) : world :=
  match ops with
  | [] => w
  | op :: ops' => execute ops' (perform op w).2
  end.

End Operations.

(** The generation backend selected by the object is called on [prompt]
    and raises. *)
Definition generation_raises `{Backends} (s : RAGSystem) (prompt : str) : Prop :=
  (llm_provider s = py "openai" /\ exists e, openai_chat_completion prompt = Raised e)
  \/ (llm_provider s = py "huggingface" /\ is_Some (hf_client s)
      /\ exists e, hf_text_generation prompt = Raised e).

(** The index and the store have the same size. *)
Definition in_sync (s : RAGSystem) : Prop :=
  faiss.ntotal (index s) = Z.of_nat (length (documents s)).

(** ** Notions of the specification *)

(** The precondition the specification puts on the chunker's
    configuration. *)
Definition valid_configuration (chunk_size overlap : Z) : Prop :=
  chunk_size > overlap /\ overlap >= 0 /\ chunk_size > 0.

(** The length of the longest sentence delimiter. *)
Definition longest_delimiter_length : Z :=
  foldr Z.max 0 (map PyStr.len DocumentParser.delimiters).

(** Length of the longest suffix of [previous] that is a prefix of [chunk],
    among the lengths up to [k]. *)
Fixpoint shared_overlap (k : nat) (previous chunk : str) : nat :=
  match k with
  | O => O
  | S k' =>
      if decide (drop (length previous - k) previous = take k chunk /\ (k <= length chunk)%nat /\ (k <= length previous)%nat)
      then k
      else shared_overlap k' previous chunk
  end.

(** The specification's reconstruction: the chunks concatenated, each one
    without the part (of at most [overlap] characters) it repeats from the
    end of its predecessor. *)
Fixpoint dedup_concat_from (overlap : nat) (previous : str) (chunks : list str) : str :=
  match chunks with
  | [] => []
  | c :: rest =>
      drop (shared_overlap overlap previous c) c ++ dedup_concat_from overlap c rest
  end.

Definition dedup_concat (overlap : Z) (chunks : list str) : str :=
  dedup_concat_from (Z.to_nat overlap) [] chunks.

(** The specification's bound on the number of steps for a text of length
    [L], with [c] the small constant. *)
Definition step_bound (L chunk_size overlap c : Z) : Z :=
  (L + Z.max 1 (chunk_size - overlap) - 1) / Z.max 1 (chunk_size - overlap) + c.

(** A part of [s] made of consecutive characters. *)
Definition contiguous_part (c s : str) : Prop :=
  exists before after, s = before ++ c ++ after.

(** No whitespace at either end. *)
Definition trimmed (c : str) : Prop :=
  (forall x, head c = Some x -> PyStr.isspace x = false)
  /\ (forall x, last c = Some x -> PyStr.isspace x = false).

(** ** Sample backends and objects *)

Module Sample.
Import PyStr.

(** An encoder of dimension 2, a chat client that is unreachable and a
    text-generation client that answers. *)
Definition backends : Backends :=
  {| embed := fun t => Returned [len t; len (filter (fun c => c = " "%char) t)];
     openai_chat_completion := fun _ => Raised (Exn "APIConnectionError");
     hf_text_generation := fun prompt => Returned (py " An answer. ") |}.

Definition stored : list document :=
  [ {| text := py "Alpha beta."; source := py "a.txt"; chunk_id := 0 |};
    {| text := py "Gamma"; source := py "b.txt"; chunk_id := 0 |} ].

(** An object holding two chunks. *)
Definition loaded : RAGSystem :=
  {| chunk_size := 500; chunk_overlap := 50; embedding_dim := 2;
     index := faiss.Index 2 [[11; 1]; [5; 0]];
     documents := stored;
     llm_provider := py "openai"; hf_client := None |}.

(** A snapshot written by an object of dimension 3. *)
Definition other_snapshot : directory :=
  {| index_faiss := Some (faiss.Index 3 [[1; 2; 3]]);
     documents_json := Some [ {| text := py "x"; source := py "c.txt"; chunk_id := 0 |} ] |}.

Definition context : list scored_document :=
  [ {| doc := {| text := py "Alpha beta."; source := py "a.txt"; chunk_id := 0 |};
       score := 1 |} ].

(** A text on which the cursor never leaves position 0 with the default
    configuration. *)
Definition stalling_text : str :=
  replicate 48 "a"%char ++ py ". " ++ replicate 500 "b"%char.

End Sample.

(** ** The full pipeline: [RAGSystem.query] *)

(** One entry of the [sources] list: the dict with keys [source],
    [chunk_id], [score] and [preview]. *)
Record source_entry : Type := SourceEntry {
  entry_source : str;
  entry_chunk_id : Z;
  entry_score : Z;
  entry_preview : str
}.

(** The dict returned by [query]. *)
Record query_result : Type := QueryResult {
  answer : str;
  sources : list source_entry
}.

Section Query.
Context `{Backends}.
Import PyStr.

(** The dict built for one retrieved record. *)
Definition source_entry_of (sd : scored_document) : source_entry :=
  {| entry_source := source (doc sd);
     entry_chunk_id := chunk_id (doc sd);
     entry_score := score sd;
     entry_preview :=
       if 200 <? len (text (doc sd))
       then prefix (text (doc sd)) 200 ++ py "..."
       else text (doc sd) |}.

Definition query (q : str) (top_k : Z) : M query_result :=
  do relevant_docs <- retrieve q top_k;
  do answer <- synthesize_answer q relevant_docs;
  ret {| answer := answer; sources := map source_entry_of relevant_docs |}.

End Query.

(** ** Sequences of calls with snapshots *)

Inductive command : Type :=
| Mutation (op : operation)
| Save (path : str)
| Load (path : str).

Section Commands.
Context `{Backends}.

Definition perform_command (c : command) : M unit :=
  match c with
  | Mutation op => perform op
  | Save path => save_index path
  | Load path => load_index path
  end.

Fixpoint execute_commands (cs : list command) (w : world) : world :=
  match cs with
  | [] => w
  | c :: cs' => execute_commands cs' (perform_command c w).2
  end.

End Commands.

(** A snapshot directory with both files, the saved index holding as many
    vectors as there are saved records. *)
Definition complete_snapshot (dir : directory) : Prop :=
  exists i ds,
    index_faiss dir = Some i /\ documents_json dir = Some ds
    /\ faiss.ntotal i = Z.of_nat (length ds).

(** The characters of [s] that are not whitespace, in order. *)
Definition visible (s : str) : str :=
  filter (fun c => PyStr.isspace c = false) s.

(** The chunks put end to end, each one after the first without its first
    [overlap] characters. *)
Definition join_overlapping (overlap : Z) (chunks : list str) : str :=
  match chunks with
  | [] => []
  | c :: rest => c ++ concat (map (drop (Z.to_nat overlap)) rest)
  end.

(** The loop invariant on a text without whitespace: the cursor is at a
    multiple of the step, the chunks are the windows taken so far, and put
    end to end without their overlaps they give the text up to the last
    cut. *)
Definition windows_invariant (text : str) (cs ov : Z) (st : DocumentParser.loop_state) : Prop :=
  let c := DocumentParser.iteration_count st in
  0 <= c
  /\ DocumentParser.chunks st
     = map (fun i => PyStr.slice text (i * (cs - ov)) (i * (cs - ov) + cs)) (seqZ 0 c)
  /\ (c = 0 \/ (c - 1) * (cs - ov) < PyStr.len text)
  /\ ((DocumentParser.start st = c * (cs - ov)
       /\ (0 < c ->
           DocumentParser.start st + ov < PyStr.len text
           /\ join_overlapping ov (DocumentParser.chunks st)
              = take (Z.to_nat (DocumentParser.start st + ov)) text))
      \/ (DocumentParser.start st = PyStr.len text /\ 0 < c
          /\ join_overlapping ov (DocumentParser.chunks st) = text)).

(** ** More built-in string operations *)

(** [c.lower()] on the code points below 256. *)
Definition lower_char (c : ascii) : ascii :=
  let n := Z.of_nat (nat_of_ascii c) in
  if ((65 <=? n) && (n <=? 90)) || ((192 <=? n) && (n <=? 222) && negb (n =? 215))
  then ascii_of_nat (Z.to_nat (n + 32))
  else c.

(** [s.lower()] *)
Definition str_lower (s : str) : str := map lower_char s.

(** [s.endswith(suffix)] *)
Definition str_endswith (s suffix : str) : bool :=
  PyStr.startswith (reverse s) (reverse suffix).

(** Number of occurrences of [sep] that [s.split(sep)] cuts at, scanning
    from the left; [skip] characters of the last occurrence remain to be
    passed over. *)
Fixpoint split_points (sep : str) (skip : nat) (s : str) : Z :=
  match s with
  | [] => 0
  | _ :: s' =>
      match skip with
      | S k => split_points sep k s'
      | O =>
          if PyStr.startswith s sep
          then 1 + split_points sep (length sep - 1) s'
          else split_points sep 0 s'
      end
  end.

(** [len(s.split(sep))] for a non-empty [sep]. *)
Definition split_length (s sep : str) : Z := 1 + split_points sep 0 s.

(** [isinstance(e, cls)] for a class without subclasses in use. *)
Definition is_instance (e : exn) (class_name : string) : bool :=
  match e with Exn n => String.eqb n class_name end.

(** ** [DocumentParser]: reading documents *)

(** The content of a file. *)
Abbreviation bytes := (list Byte.byte).

(** What a path names on disk: a regular file with its content, or a
    directory. A path that names nothing is absent from the map of the
    file system. *)
Inductive node : Type :=
| RegularFile (content : bytes)
| DirectoryNode.

(** The libraries the parser reads files with. [path_suffix] is
    [Path(file_path).suffix]; [pdfplumber_pages] and [pypdf2_pages] give
    what [extract_text()] returns for the pages of a PDF, in order, the
    empty string for a page without text; [read_text encoding] is the
    [read()] of the file opened in text mode with that encoding. Each
    reader may raise. *)
Class Readers : Type := {
  path_suffix : str -> str;
  pdfplumber_pages : bytes -> outcome (list str);
  pypdf2_pages : bytes -> outcome (list str);
  read_text : str -> bytes -> outcome str
}.

Section Parsing.
Context `{Readers}.
Import PyStr.

Definition supported_formats : list str := [py ".pdf"; py ".txt"].

(** The text accumulated over [enumerate(pages, page_num)]: a header and
    the page's text for every page that has text. *)
Fixpoint pages_text (page_num : Z) (pages : list str) : str :=
  match pages with
  | [] => []
  | page_text :: rest =>
      (if truthy page_text
       then nl ++ py "--- Page " ++ str_of_int page_num ++ py " ---" ++ nl
            ++ page_text ++ nl
       else [])
      ++ pages_text (page_num + 1) rest
  end.

(** A library call that opens [file_path] and reads it: opening a path
    that names nothing raises [FileNotFoundError], opening a directory
    raises [IsADirectoryError] ([PermissionError] on Windows). *)
Definition on_file {A : Type} (files : gmap str node) (file_path : str)
    (reader : bytes -> outcome A) : outcome A :=
  match files !! file_path with
  | Some (RegularFile content) => reader content
  | Some DirectoryNode => Raised (Exn "IsADirectoryError")
  | None => Raised (Exn "FileNotFoundError")
  end.

Definition _parse_pdf_pypdf2 (files : gmap str node) (file_path : str) : outcome str :=
  match on_file files file_path pypdf2_pages with
  | Returned pages => Returned (strip (pages_text 1 pages))
  | Raised _ => Raised (Exn "ValueError")
  end.

(** The end of [_parse_pdf], once [text_content] holds the fallback's
    text. *)
Definition pdf_text_or_error (text_content : str) : outcome str :=
  if truthy (strip text_content) then Returned (strip text_content)
  else Raised (Exn "ValueError").

Definition _parse_pdf (files : gmap str node) (file_path : str) : outcome str :=
  (* the [except Exception] handler: the fallback, called from there *)
  let handler :=
    match _parse_pdf_pypdf2 files file_path with
    | Returned text_content => pdf_text_or_error text_content
    | Raised e => Raised e
    end in
  match on_file files file_path pdfplumber_pages with
  | Returned pages =>
      let text_content := pages_text 1 pages in
      if truthy (strip text_content) then Returned (strip text_content)
      else
        match _parse_pdf_pypdf2 files file_path with
        | Returned text_content' => pdf_text_or_error text_content'
        | Raised _ => handler
        end
  | Raised _ => handler
  end.

Definition _parse_txt (files : gmap str node) (file_path : str) : outcome str :=
  match on_file files file_path (read_text (py "utf-8")) with
  | Returned content => Returned (strip content)
  | Raised e =>
      if is_instance e "UnicodeDecodeError" then
        match on_file files file_path (read_text (py "latin-1")) with
        | Returned content => Returned (strip content)
        | Raised e' => Raised e'
        end
      else Raised (Exn "ValueError")
  end.

(** [path.exists()] holds of a regular file and of a directory alike. *)
Definition parse_document (files : gmap str node) (file_path : str) : outcome str :=
  match files !! file_path with
  | None => Raised (Exn "FileNotFoundError")
  | Some _ =>
      let file_extension := str_lower (path_suffix file_path) in
      if negb (bool_decide (file_extension ∈ supported_formats))
      then Raised (Exn "ValueError")
      else if bool_decide (file_extension = py ".pdf") then _parse_pdf files file_path
      else if bool_decide (file_extension = py ".txt") then _parse_txt files file_path
      else Raised (Exn "ValueError")
  end.

End Parsing.

(** ** The web application: [main.py] *)

(** An uploaded file: its name and its content. *)
Record UploadFile : Type := Upload {
  filename : str;
  file : bytes
}.

(** One entry of the [files] list of the upload response: the dict with
    [status] ["success"] and the count reported under [chunks], or with
    [status] ["error"]. *)
Inductive upload_entry : Type :=
| UploadSuccess (name : str) (chunks : Z)
| UploadError (name : str).

Definition entry_filename (e : upload_entry) : str :=
  match e with UploadSuccess n _ => n | UploadError n => n end.

Record upload_response : Type := UploadResponse {
  processed : Z;
  uploaded_files : list upload_entry;
  total_documents : Z
}.

Record query_response : Type := QueryResponse {
  response_answer : str;
  response_sources : list source_entry;
  response_query : str
}.

(** What a handler gives back: a response body, or an [HTTPException]
    with its status code. *)
Inductive http (A : Type) : Type :=
| Response (body : A)
| HTTPException (status_code : Z).
Arguments Response {A} body.
Arguments HTTPException {A} status_code.

(** The process: the global [rag_system], the snapshot directories and
    the file system, by path. *)
Record app : Type := App {
  rag_system : option RAGSystem;
  snapshot_disk : disk;
  files : gmap str node
}.

(** The deployment: what loading the embedding model gives as its
    dimension (or raises), the provider and client the environment
    configures, the path [UPLOAD_DIR / filename], whether opening a path
    for writing succeeds, whether a path is an entry of the upload
    directory, whether listing that directory succeeds, the order in
    which the listing yields two entries, and whether deleting a file
    succeeds. *)
Class Deployment : Type := {
  embedding_dimension : outcome Z;
  env_llm_provider : str;
  env_hf_client : option str;
  upload_path : str -> str;
  open_for_writing : str -> outcome unit;
  in_upload_dir : str -> bool;
  listdir_upload_dir : outcome unit;
  listed_before : str -> str -> bool;
  unlink : str -> outcome unit
}.

Section Application.
Context `{Backends} `{Readers} `{Deployment}.
Import PyStr.

(** [get_rag_system()]: the global object, constructed on first use. *)
Definition get_rag_system (a : app) : outcome RAGSystem * app :=
  match rag_system a with
  | Some rag => (Returned rag, a)
  | None =>
      match embedding_dimension with
      | Returned dim =>
          let rag := init 500 50 dim env_llm_provider env_hf_client in
          (Returned rag, App (Some rag) (snapshot_disk a) (files a))
      | Raised e => (Raised e, a)
      end
  end.

(** [rag.method(...)] on the global object [rag]. *)
Definition on_rag {A : Type} (method : M A) (rag : RAGSystem) (a : app) : outcome A * app :=
  let r := method (rag, snapshot_disk a) in
  (r.1, App (Some r.2.1) r.2.2 (files a)).

(** [get_rag_system().method(...)] *)
Definition with_rag {A : Type} (method : M A) (a : app) : outcome A * app :=
  match get_rag_system a with
  | (Raised e, a') => (Raised e, a')
  | (Returned rag, a') => on_rag method rag a'
  end.

(** [open(file_path, "wb")]: a directory cannot be opened for writing;
    for every other path the deployment decides. *)
Definition open_wb (files : gmap str node) (file_path : str) : outcome unit :=
  match files !! file_path with
  | Some DirectoryNode => Raised (Exn "IsADirectoryError")
  | _ => open_for_writing file_path
  end.

(** The body of the loop of [upload_documents] for one file: the entry
    appended, or [None] when the iteration raises out of the loop. *)
Definition upload_one (f : UploadFile) (a : app) : option upload_entry * app :=
  if negb (str_endswith (filename f) (py ".pdf") || str_endswith (filename f) (py ".txt"))
  then (None, a)
  else
    let file_path := upload_path (filename f) in
    match open_wb (files a) file_path with
    | Raised _ => (None, a)
    | Returned _ =>
        let a1 := App (rag_system a) (snapshot_disk a)
                      (<[file_path := RegularFile (file f)]> (files a)) in
        match parse_document (files a1) file_path with
        | Raised _ => (Some (UploadError (filename f)), a1)
        | Returned text_content =>
            match with_rag (add_document text_content (filename f)) a1 with
            | (Raised _, a2) => (Some (UploadError (filename f)), a2)
            | (Returned _, a2) =>
                (Some (UploadSuccess (filename f) (split_length text_content (nl ++ nl))), a2)
            end
        end
    end.

Fixpoint upload_loop (fs : list UploadFile) (uploaded : list upload_entry) (a : app)
    : option (list upload_entry) * app :=
  match fs with
  | [] => (Some uploaded, a)
  | f :: fs' =>
      match upload_one f a with
      | (None, a') => (None, a')
      | (Some entry, a') => upload_loop fs' (uploaded ++ [entry]) a'
      end
  end.

Definition upload_documents (fs : list UploadFile) (a : app) : http upload_response * app :=
  match upload_loop fs [] a with
  | (None, a') => (HTTPException 500, a')
  | (Some uploaded, a') =>
      match with_rag get_document_count a' with
      | (Returned n, a'') =>
          (Response {| processed := Z.of_nat (length fs);
                       uploaded_files := uploaded;
                       total_documents := n |}, a'')
      | (Raised _, a'') => (HTTPException 500, a'')
      end
  end.

Definition query_knowledge_base (q : str) (top_k : Z) (a : app) : http query_response * app :=
  match get_rag_system a with
  | (Raised _, a') => (HTTPException 500, a')
  | (Returned rag, a') =>
      match on_rag get_document_count rag a' with
      | (Raised _, a'') => (HTTPException 500, a'')
      | (Returned n, a'') =>
          if n =? 0 then (HTTPException 400, a'')
          else
            match on_rag (query q top_k) rag a'' with
            | (Returned result, a3) =>
                (Response {| response_answer := answer result;
                             response_sources := sources result;
                             response_query := q |}, a3)
            | (Raised _, a3) => (HTTPException 500, a3)
            end
      end
  end.

(** [GET /documents]: the number of sources and the sources. *)
Definition list_documents_endpoint (a : app) : http (Z * gset str) * app :=
  match with_rag list_documents a with
  | (Returned srcs, a') => (Response (Z.of_nat (size srcs), srcs), a')
  | (Raised _, a') => (HTTPException 500, a')
  end.

(** The paths [UPLOAD_DIR.iterdir()] yields: the entries of the upload
    directory, files and directories, in the order of the deployment. *)
Definition iterdir (files : gmap str node) : list str :=
  merge_sort (fun p q => Is_true (listed_before p q))
    (filter (fun p => in_upload_dir p = true) (map fst (map_to_list files))).

(** The loop over the listing: an entry is deleted when [is_file()]
    holds of it, and the first deletion that raises ends the loop, the
    files deleted before it being gone. *)
Fixpoint unlink_loop (paths : list str) (files : gmap str node)
    : outcome unit * gmap str node :=
  match paths with
  | [] => (Returned tt, files)
  | p :: rest =>
      match files !! p with
      | Some (RegularFile _) =>
          match unlink p with
          | Returned _ => unlink_loop rest (delete p files)
          | Raised e => (Raised e, files)
          end
      | _ => unlink_loop rest files
      end
  end.

(** [DELETE /clear]: the store is cleared, then the files of the upload
    directory are removed; whatever raises on the way, the object that
    cannot be constructed, the listing or a deletion, is answered with
    500, after what was done before it. *)
Definition clear_knowledge_base (a : app) : http Z * app :=
  match with_rag clear a with
  | (Returned _, a') =>
      match listdir_upload_dir with
      | Raised _ => (HTTPException 500, a')
      | Returned _ =>
          match unlink_loop (iterdir (files a')) (files a') with
          | (Returned _, files') =>
              (Response 0, App (rag_system a') (snapshot_disk a') files')
          | (Raised _, files') =>
              (HTTPException 500, App (rag_system a') (snapshot_disk a') files')
          end
      end
  | (Raised _, a') => (HTTPException 500, a')
  end.

(** [GET /health]: the count, without constructing the object. *)
Definition health_check (a : app) : Z :=
  match rag_system a with
  | Some rag => Z.of_nat (length (documents rag))
  | None => 0
  end.

End Application.

(** A request to the application. *)
Inductive request : Type :=
| PostUpload (fs : list UploadFile)
| PostQuery (q : str) (top_k : Z)
| GetDocuments
| DeleteClear
| GetHealth.

Section Serving.
Context `{Backends} `{Readers} `{Deployment}.

(** The process after a request has been handled. *)
Definition serve (r : request) (a : app) : app :=
  match r with
  | PostUpload fs => (upload_documents fs a).2
  | PostQuery q top_k => (query_knowledge_base q top_k a).2
  | GetDocuments => (list_documents_endpoint a).2
  | DeleteClear => (clear_knowledge_base a).2
  | GetHealth => a
  end.

Fixpoint serve_all (rs : list request) (a : app) : app :=
  match rs with
  | [] => a
  | r :: rs' => serve_all rs' (serve r a)
  end.

End Serving.

(** The records and the vectors the process holds; none before the
    object is constructed. *)
Definition stored_records (a : app) : list document :=
  match rag_system a with Some rag => documents rag | None => [] end.

Definition stored_vectors (a : app) : list vector :=
  match rag_system a with Some rag => faiss.xb (index rag) | None => [] end.

(** The upload handler accepts the name of the file. *)
Definition accepted_name (f : UploadFile) : bool :=
  str_endswith (filename f) (py ".pdf") || str_endswith (filename f) (py ".txt").

(** The object of the process, once constructed, has as many vectors as
    records. *)
Definition app_in_sync (a : app) : Prop :=
  forall rag, rag_system a = Some rag -> in_sync rag.

(** ** A sample deployment *)

Module SampleApp.
Import PyStr.

(** Readers for which every PDF has one page of text that only PyPDF2
    can extract, and every text file holds Latin-1 text. *)
Definition readers : Readers :=
  {| path_suffix := fun p =>
       if str_endswith p (py ".pdf") then py ".pdf"
       else if str_endswith p (py ".txt") then py ".txt" else [];
     pdfplumber_pages := fun _ => Raised (Exn "PDFSyntaxError");
     pypdf2_pages := fun _ => Returned [py "Page one."];
     read_text := fun _ content => Returned (map ascii_of_byte content) |}.

(** Readers for which a PDF has one page, holding the text layer the
    file carries: a scanned document, which carries none, has a page
    without text. *)
Definition text_layer_readers : Readers :=
  {| path_suffix := fun p =>
       if str_endswith p (py ".pdf") then py ".pdf"
       else if str_endswith p (py ".txt") then py ".txt" else [];
     pdfplumber_pages := fun content => Returned [map ascii_of_byte content];
     pypdf2_pages := fun content => Returned [map ascii_of_byte content];
     read_text := fun _ content => Returned (map ascii_of_byte content) |}.

(** A deployment with an encoder of dimension 2 and a writable upload
    directory. *)
Definition deployment : Deployment :=
  {| embedding_dimension := Returned 2;
     env_llm_provider := py "openai";
     env_hf_client := None;
     upload_path := fun name => py "uploads/" ++ name;
     open_for_writing := fun _ => Returned tt;
     in_upload_dir := fun p => startswith p (py "uploads/");
     listdir_upload_dir := Returned tt;
     listed_before := fun _ _ => true;
     unlink := fun _ => Returned tt |}.

Definition notes : UploadFile :=
  {| filename := py "notes.txt"; file := list_byte_of_string " Alpha beta. " |}.

Definition image : UploadFile :=
  {| filename := py "photo.png"; file := [] |}.

(** A scanned document: a PDF without a text layer. *)
Definition scan : UploadFile :=
  {| filename := py "scan.pdf"; file := [] |}.

(** The same deployment on a file system that refuses deletions. *)
Definition read_only_deployment : Deployment :=
  {| embedding_dimension := Returned 2;
     env_llm_provider := py "openai";
     env_hf_client := None;
     upload_path := fun name => py "uploads/" ++ name;
     open_for_writing := fun _ => Returned tt;
     in_upload_dir := fun p => startswith p (py "uploads/");
     listdir_upload_dir := Returned tt;
     listed_before := fun _ _ => true;
     unlink := fun _ => Raised (Exn "PermissionError") |}.

(** A process that has not constructed its object yet. *)
Definition fresh : app := App None ∅ ∅.

(** The object after [notes] has been ingested. *)
Definition after_notes : RAGSystem :=
  {| chunk_size := 500; chunk_overlap := 50; embedding_dim := 2;
     index := faiss.Index 2 [[11; 1]];
     documents := [ {| text := py "Alpha beta."; source := py "notes.txt"; chunk_id := 0 |} ];
     llm_provider := py "openai"; hf_client := None |}.

End SampleApp.

(** * Properties of the chunker *)

(** Splits a conjunction into its parts, leaving the parts untouched. *)
Ltac split_conj := repeat match goal with |- _ /\ _ => split end.

Section BuiltinFacts.
Import PyStr.

Lemma len_nonneg (s : str) : 0 <= len s.
Proof. unfold len. lia. Qed.

Lemma adjust_range n i : 0 <= n -> 0 <= adjust n i <= n.
Proof. unfold adjust. destruct (Z.ltb_spec i 0); lia. Qed.

Lemma len_slice s a b :
  len (slice s a b) = Z.max 0 (adjust (len s) b - adjust (len s) a).
Proof.
  pose proof (adjust_range (len s) a (len_nonneg s)).
  pose proof (adjust_range (len s) b (len_nonneg s)).
  unfold slice, len in *. rewrite length_take, length_drop. lia.
Qed.

(** A window of at most [k] characters, whatever the sign of the bounds. *)
Lemma len_slice_window s a k : 0 <= k -> len (slice s a (a + k)) <= k.
Proof.
  intros Hk. rewrite len_slice. pose proof (len_nonneg s).
  unfold adjust.
  destruct (Z.ltb_spec (a + k) 0), (Z.ltb_spec a 0); lia.
Qed.

Lemma slice_contiguous s a b : contiguous_part (slice s a b) s.
Proof.
  unfold slice.
  set (m := Z.to_nat (adjust (len s) a)). set (k := Z.to_nat _).
  exists (take m s), (drop k (drop m s)).
  by rewrite (take_drop k), (take_drop m).
Qed.

Lemma lstrip_suffix s : exists ws, s = ws ++ lstrip s /\ Forall (fun c => isspace c = true) ws.
Proof.
  induction s as [|c s [ws [Hs Hws]]]; simpl.
  - by exists [].
  - destruct (isspace c) eqn:Hc.
    + exists (c :: ws). split; [simpl; congruence | by constructor].
    + by exists [].
Qed.

Lemma lstrip_head s x : head (lstrip s) = Some x -> isspace x = false.
Proof.
  induction s as [|c s IH]; simpl; [done|].
  destruct (isspace c) eqn:Hc; [done|]. simpl. congruence.
Qed.

Lemma rstrip_prefix s : exists ws, s = rstrip s ++ ws /\ Forall (fun c => isspace c = true) ws.
Proof.
  unfold rstrip. destruct (lstrip_suffix (reverse s)) as [ws [Hs Hws]].
  exists (reverse ws). split.
  - rewrite <- reverse_app, <- Hs. by rewrite reverse_involutive.
  - by apply Forall_reverse.
Qed.

Lemma rstrip_last s x : last (rstrip s) = Some x -> isspace x = false.
Proof.
  unfold rstrip. rewrite last_reverse. apply lstrip_head.
Qed.

Lemma strip_length s : (length (strip s) <= length s)%nat.
Proof.
  unfold strip.
  destruct (lstrip_suffix s) as [w1 [H1 _]].
  destruct (rstrip_prefix (lstrip s)) as [w2 [H2 _]].
  rewrite H1 at 2. rewrite H2 at 2. rewrite !length_app. lia.
Qed.

Lemma strip_contiguous s : contiguous_part (strip s) s.
Proof.
  unfold strip.
  destruct (lstrip_suffix s) as [w1 [H1 _]].
  destruct (rstrip_prefix (lstrip s)) as [w2 [H2 _]].
  exists w1, w2. by rewrite <- H2.
Qed.

Lemma strip_trimmed s : trimmed (strip s).
Proof.
  split; [|apply rstrip_last].
  unfold strip. intros x Hx.
  destruct (rstrip_prefix (lstrip s)) as [w2 [H2 _]].
  apply (lstrip_head s). rewrite H2.
  destruct (rstrip (lstrip s)); [done|]. exact Hx.
Qed.

Lemma strip_whitespace s : Forall (fun c => isspace c = true) s -> strip s = [].
Proof.
  intros Hs. unfold strip.
  assert (lstrip s = []) as ->.
  { induction Hs as [|c s Hc _ IH]; simpl; [done|]. by rewrite Hc. }
  done.
Qed.

Lemma contiguous_part_trans a b c :
  contiguous_part a b -> contiguous_part b c -> contiguous_part a c.
Proof.
  intros [p1 [q1 ->]] [p2 [q2 ->]].
  exists (p2 ++ p1), (q1 ++ q2). by rewrite <- !app_assoc.
Qed.

Lemma startswith_length s sub : startswith s sub = true -> (length sub <= length s)%nat.
Proof.
  revert s. induction sub as [|c sub IH]; intros [|c' s]; simpl; try done; try lia.
  destruct (decide (c = c')); [|done]. intros Hs. apply IH in Hs. lia.
Qed.

Lemma last_occurrence_bounds sub w i acc j :
  sub <> [] ->
  last_occurrence sub w i acc = Some j ->
  acc = Some j \/ (i <= j /\ j + length sub <= i + length w)%nat.
Proof.
  intros Hsub. revert i acc.
  induction w as [|c w IH]; intros i acc; cbn [last_occurrence].
  - destruct sub; [done|]. auto.
  - intros Hj. apply IH in Hj as [Hj|Hj]; [|right; simpl; lia].
    destruct (startswith (c :: w) sub) eqn:Hs; [|by left].
    apply startswith_length in Hs.
    right. injection Hj as <-. lia.
Qed.

(** A hit of [rfind] lies inside the adjusted window. *)
Lemma rfind_bounds s sub a b :
  sub <> [] -> a < len s -> rfind s sub a b <> -1 ->
  adjust (len s) a <= rfind s sub a b
  /\ rfind s sub a b + len sub <= adjust (len s) b.
Proof.
  intros Hsub Ha. unfold rfind.
  pose proof (len_nonneg s) as Hn.
  set (b' := if len s <? b then _ else _).
  set (a' := if a <? 0 then _ else _).
  assert (b' = adjust (len s) b) as Hb'.
  { unfold b', adjust. destruct (Z.ltb_spec (len s) b), (Z.ltb_spec b 0); lia. }
  assert (a' = adjust (len s) a) as Ha'.
  { unfold a', adjust. destruct (Z.ltb_spec a 0); lia. }
  destruct (Z.ltb_spec b' a') as [|Hle]; [intros; congruence|].
  destruct (last_occurrence _ _ _ _) as [j|] eqn:Hj; [|intros; congruence].
  intros _. apply last_occurrence_bounds in Hj; [|done].
  destruct Hj as [Hj|Hj]; [done|].
  rewrite length_take in Hj. rewrite <- Ha', <- Hb'. unfold len. lia.
Qed.

End BuiltinFacts.

Section ChunkerFacts.
Import PyStr DocumentParser.

Lemma delimiters_nonempty : Forall (fun d => d <> []) delimiters.
Proof. repeat constructor; discriminate. Qed.

Lemma sentence_end_hit text ds s e x :
  Forall (fun d => d <> []) ds ->
  sentence_end text ds s e = Some x ->
  exists d, d <> [] /\ rfind text d s e <> -1 /\ x = rfind text d s e + len d.
Proof.
  induction 1 as [|d ds Hd _ IH]; simpl; [done|].
  destruct (Z.eqb_spec (rfind text d s e) (-1)) as [|Hne]; [done|].
  intros [= <-]. by exists d.
Qed.

(** [end] is either the tentative [start + chunk_size] or just after a
    delimiter found in the window. *)
Lemma chunk_end_cases text cs s :
  chunk_end text cs s = s + cs
  \/ exists d, d <> [] /\ rfind text d s (s + cs) <> -1
               /\ chunk_end text cs s = rfind text d s (s + cs) + len d.
Proof.
  unfold chunk_end. destruct (s + cs <? len text); [|by left].
  destruct (sentence_end _ _ _ _) as [x|] eqn:Hx.
  - right. by apply (sentence_end_hit _ _ _ _ _ delimiters_nonempty) in Hx.
  - destruct (Z.eqb_spec (rfind text (py " ") s (s + cs)) (-1)) as [|Hne]; [by left|].
    right. by exists (py " ").
Qed.

(** The slice taken in an iteration has at most [chunk_size] characters. *)
Lemma len_chunk_slice text cs s :
  0 <= cs -> s < len text ->
  len (slice text s (chunk_end text cs s)) <= cs.
Proof.
  intros Hcs Hs.
  destruct (chunk_end_cases text cs s) as [->|[d [Hd [Hr ->]]]].
  - by apply len_slice_window.
  - destruct (rfind_bounds text d s (s + cs) Hd Hs Hr) as [Hlo Hhi].
    pose proof (len_slice_window text s cs Hcs) as Hw.
    rewrite len_slice in *.
    pose proof (adjust_range (len text) s (len_nonneg text)).
    pose proof (adjust_range (len text) (s + cs) (len_nonneg text)).
    pose proof (len_nonneg d).
    assert (len d <> 0) by (unfold len; destruct d; simpl; [done|lia]).
    set (e := rfind text d s (s + cs) + len d) in *.
    assert (adjust (len text) e = e) as -> by (unfold adjust; destruct (Z.ltb_spec e 0); lia).
    lia.
Qed.

(** An invariant of the loop holds, with the negated guard, in the
    state the loop ends in. *)
Lemma chunk_loop_invariant (P : loop_state -> Prop) text cs ov :
  (forall st, loop_guard text st = true -> P st -> P (chunk_step text cs ov st)) ->
  forall fuel st st',
    P st -> chunk_loop fuel text cs ov st = Some st' ->
    P st' /\ loop_guard text st' = false.
Proof.
  intros Hstep. induction fuel as [|fuel IH]; intros st st' HP; simpl;
    destruct (loop_guard text st) eqn:Hg; try done.
  - by intros [= <-].
  - apply IH. by apply Hstep.
  - by intros [= <-].
Qed.

(** The loop ends as soon as the fuel exceeds the iterations left under
    the cap. *)
Lemma chunk_loop_total text cs ov fuel st :
  (Z.to_nat (max_iterations - iteration_count st) < fuel)%nat ->
  is_Some (chunk_loop fuel text cs ov st).
Proof.
  revert st. induction fuel as [|fuel IH]; intros st Hf; [lia|].
  simpl. destruct (loop_guard text st) eqn:Hg; [|done].
  apply IH. unfold loop_guard in Hg. apply andb_true_iff in Hg as [_ Hc].
  apply Z.ltb_lt in Hc. simpl. lia.
Qed.

Lemma chunk_text_run_total text cs ov :
  is_Some (chunk_text_run enough_fuel text cs ov).
Proof.
  unfold chunk_text_run. destruct (truthy text); [|done].
  apply chunk_loop_total. unfold enough_fuel, initial_state. simpl iteration_count. lia.
Qed.

(** Proof rule for a call: an invariant of the loop that holds initially
    holds in the final state, which exists. *)
Lemma chunk_text_rule (P : loop_state -> Prop) text cs ov :
  P initial_state ->
  (forall st, loop_guard text st = true -> P st -> P (chunk_step text cs ov st)) ->
  exists st,
    chunk_text_run enough_fuel text cs ov = Some st
    /\ chunk_text text cs ov = chunks st
    /\ chunk_text_iterations text cs ov = iteration_count st
    /\ P st.
Proof.
  intros H0 Hstep.
  destruct (chunk_text_run_total text cs ov) as [st Hst].
  exists st. unfold chunk_text, chunk_text_iterations. rewrite Hst.
  repeat split; try done.
  unfold chunk_text_run in Hst. destruct (truthy text).
  - by apply (chunk_loop_invariant P text cs ov Hstep _ _ _ H0) in Hst as [? _].
  - by injection Hst as <-.
Qed.

Lemma guard_start text st : loop_guard text st = true -> start st < len text.
Proof. unfold loop_guard. intros [Hs _]%andb_true_iff. by apply Z.ltb_lt. Qed.

(** Every chunk is bounded by the chunk size, as soon as that is not
    negative. *)
Lemma chunk_text_bounded text cs ov :
  0 <= cs -> Forall (fun c => len c <= cs) (chunk_text text cs ov).
Proof.
  intros Hcs.
  destruct (chunk_text_rule (fun st => Forall (fun c => len c <= cs) (chunks st)) text cs ov)
    as [st [_ [-> [_ HP]]]]; [by constructor| |done].
  intros st Hg HP. simpl. destruct (truthy _); [|done].
  apply Forall_app. split; [done|]. constructor; [|done].
  pose proof (len_chunk_slice text cs (start st) Hcs (guard_start _ _ Hg)) as Hl.
  pose proof (strip_length (slice text (start st) (chunk_end text cs (start st)))).
  unfold len in *. lia.
Qed.

(** At most one chunk per iteration, and at most [max_iterations]
    iterations. *)
Lemma chunk_text_counts text cs ov :
  exists st,
    chunk_text_run enough_fuel text cs ov = Some st
    /\ chunk_text text cs ov = chunks st
    /\ chunk_text_iterations text cs ov = iteration_count st
    /\ 0 <= iteration_count st <= max_iterations
    /\ Z.of_nat (length (chunks st)) <= iteration_count st.
Proof.
  destruct (chunk_text_rule
              (fun st => 0 <= iteration_count st <= max_iterations
                         /\ Z.of_nat (length (chunks st)) <= iteration_count st)
              text cs ov) as [st [Hr [Hc [Hi HP]]]].
  - unfold max_iterations. simpl. lia.
  - intros st Hg [Hlo Hhi]. unfold loop_guard in Hg.
    apply andb_true_iff in Hg as [_ Hg]. apply Z.ltb_lt in Hg.
    simpl. destruct (truthy _); rewrite ?length_app; simpl; lia.
  - by exists st.
Qed.

(** A cursor that an iteration leaves where it was stays there: the loop
    runs to the cap and appends the same chunk each time. *)
Lemma chunk_loop_stalled text cs ov s c :
  s < len text ->
  next_start text cs ov s (chunk_end text cs s) = s ->
  strip (slice text s (chunk_end text cs s)) = c ->
  truthy c = true ->
  forall fuel count chs,
    0 <= count <= max_iterations ->
    (Z.to_nat (max_iterations - count) < fuel)%nat ->
    chunk_loop fuel text cs ov {| start := s; iteration_count := count; chunks := chs |}
    = Some {| start := s; iteration_count := max_iterations;
              chunks := chs ++ replicate (Z.to_nat (max_iterations - count)) c |}.
Proof.
  intros Hs Hnext Hc Hne.
  induction fuel as [|fuel IH]; intros count chs Hcount Hf; [lia|].
  simpl. unfold loop_guard. simpl.
  destruct (Z.ltb_spec s (len text)); [simpl|lia].
  destruct (Z.ltb_spec count max_iterations) as [Hlt|Hge].
  - unfold chunk_step. simpl. rewrite Hnext, Hc, Hne.
    rewrite IH by lia.
    replace (Z.to_nat (max_iterations - count))
      with (S (Z.to_nat (max_iterations - (count + 1)))) by lia.
    simpl. by rewrite <- app_assoc.
  - replace count with max_iterations by lia.
    rewrite Z.sub_diag. simpl. by rewrite app_nil_r.
Qed.

(** A text of whitespace only yields no chunk, whatever the
    configuration. *)
Lemma chunk_text_whitespace text cs ov :
  Forall (fun c => isspace c = true) text -> chunk_text text cs ov = [].
Proof.
  intros Hws.
  destruct (chunk_text_rule (fun st => chunks st = []) text cs ov)
    as [st [_ [-> [_ HP]]]]; [done| |done].
  intros st _ HP. simpl. rewrite strip_whitespace; [done|].
  unfold slice. by apply Forall_take, Forall_drop.
Qed.

Lemma chunk_loop_exit fuel text cs ov st :
  loop_guard text st = false -> chunk_loop fuel text cs ov st = Some st.
Proof. intros Hg. destruct fuel; simpl; by rewrite Hg. Qed.

Lemma slice_whole text k : len text <= k -> slice text 0 k = text.
Proof.
  intros Hk. pose proof (len_nonneg text) as Hn. unfold slice, adjust.
  destruct (Z.ltb_spec 0 0); [lia|]. destruct (Z.ltb_spec k 0); [lia|].
  rewrite (Z.min_l 0), (Z.min_r k) by lia. rewrite Z.sub_0_r. simpl.
  apply firstn_all2. unfold len. lia.
Qed.

(** A text that fits in one window is cut once, at its end. *)
Lemma chunk_text_single_window text cs ov :
  text <> [] -> len text <= cs ->
  chunk_text text cs ov = if truthy (strip text) then [strip text] else [].
Proof.
  intros Hne Hl.
  assert (0 < len text) as Hpos by (unfold len; destruct text; simpl; [done|lia]).
  assert (truthy text = true) as Ht by (by destruct text).
  assert (chunk_end text cs 0 = cs) as He.
  { unfold chunk_end. rewrite Z.add_0_l.
    destruct (Z.ltb_spec cs (len text)); [lia|done]. }
  assert (loop_guard text initial_state = true) as Hg0.
  { unfold loop_guard, initial_state. simpl.
    destruct (Z.ltb_spec 0 (len text)); [done|lia]. }
  assert (loop_guard text (chunk_step text cs ov initial_state) = false) as Hg1.
  { unfold loop_guard, chunk_step, initial_state. cbn [start iteration_count].
    rewrite He. unfold next_start.
    destruct (Z.leb_spec cs 0); [lia|]. destruct (Z.ltb_spec cs (len text)); [lia|].
    destruct (Z.ltb_spec (len text) (len text)); [lia|done]. }
  unfold chunk_text, chunk_text_run, enough_fuel. rewrite Ht.
  cbn [chunk_loop]. rewrite Hg0, (chunk_loop_exit _ _ _ _ _ Hg1).
  unfold chunk_step, initial_state. cbn [start chunks].
  rewrite He, slice_whole by done. by destruct (truthy (strip text)).
Qed.

End ChunkerFacts.

Section ChunkerClaims.
Import PyStr DocumentParser.

(** C7. Chunk bound: under a valid configuration, every chunk returned by
    [chunk_text] except possibly the last has at most
    [chunk_size + longest_delimiter_length] characters, the longest
    delimiter having 2. *)
Theorem chunk_bound text cs ov i c :
  valid_configuration cs ov ->
  chunk_text text cs ov !! i = Some c ->
  (S i < length (chunk_text text cs ov))%nat ->
  len c <= cs + longest_delimiter_length /\ longest_delimiter_length = 2.
Proof.
  intros [_ [_ Hcs]] Hc _. split; [|done].
  pose proof (chunk_text_bounded text cs ov ltac:(lia)) as Hall.
  rewrite Forall_lookup in Hall. specialize (Hall i c Hc).
  change longest_delimiter_length with 2. lia.
Qed.

Lemma chunk_bound_witness :
  len (py "aaaa") <= 6 + longest_delimiter_length /\ longest_delimiter_length = 2.
Proof.
  apply (chunk_bound (py "aaaa bbbb cccc") 6 1 0%nat (py "aaaa")).
  - unfold valid_configuration. lia.
  - vm_compute. reflexivity.
  - vm_compute. lia.
Defined.

(** C2, as the code has it. [chunk_text] does not validate its
    configuration: for every text and every pair of chunk size and
    overlap, valid or not, the loop ends within [max_iterations]
    iterations and the call returns a list of at most [max_iterations]
    chunks; it raises nothing. *)
Theorem chunk_text_accepts_every_configuration text cs ov :
  exists chunks,
    chunk_text_call text cs ov = Returned chunks
    /\ is_Some (chunk_text_run enough_fuel text cs ov)
    /\ Z.of_nat (length chunks) <= max_iterations.
Proof.
  destruct (chunk_text_counts text cs ov) as [st [Hr [Hc [_ [Hi Hl]]]]].
  exists (chunk_text text cs ov). split; [done|]. split; [by rewrite Hr|].
  rewrite Hc. lia.
Qed.

(** C2, counterexample: with chunk size 0 and overlap 0, with overlap
    equal to the chunk size and with a negative overlap, the call returns
    a list instead of failing with [ConfigurationError]. *)
Lemma configuration_error_counterexample :
  ~ valid_configuration 0 0
  /\ chunk_text_call (py "abc") 0 0 = Returned []
  /\ chunk_text_call (py "abc") 0 0 <> Raised (Exn "ConfigurationError")
  /\ ~ valid_configuration 3 3
  /\ chunk_text_call (py "abc") 3 3 = Returned [py "abc"]
  /\ ~ valid_configuration 2 (-1)
  /\ chunk_text_call (py "abc") 2 (-1) = Returned [py "ab"].
Proof.
  split_conj.
  - unfold valid_configuration. lia.
  - vm_compute. reflexivity.
  - discriminate.
  - unfold valid_configuration. lia.
  - vm_compute. reflexivity.
  - unfold valid_configuration. lia.
  - vm_compute. reflexivity.
Qed.

(** C8, as the code has it. Every call ends within the fixed cap of
    [max_iterations] = 10000 iterations, whatever the length of the text;
    an iteration that leaves [end <= start] advances the cursor by
    [max(1, chunk_size)], past where it was; and a call that reaches the
    cap returns the chunks collected so far. *)
Theorem chunking_is_capped text cs ov :
  max_iterations = 10000
  /\ (exists st,
        chunk_text_run enough_fuel text cs ov = Some st
        /\ chunk_text_iterations text cs ov = iteration_count st
        /\ 0 <= iteration_count st <= max_iterations
        /\ chunk_text_call text cs ov = Returned (chunks st))
  /\ (forall s e, e <= s ->
        next_start text cs ov s e = s + Z.max 1 cs
        /\ s < next_start text cs ov s e).
Proof.
  split; [done|]. split.
  - destruct (chunk_text_counts text cs ov) as [st [Hr [Hc [Hi [Hn _]]]]].
    exists st. split_conj; [exact Hr|exact Hi|lia|lia|].
    unfold chunk_text_call. by rewrite Hc.
  - intros s e Hes. unfold next_start.
    destruct (Z.leb_spec e s); [lia|lia].
Qed.

(** C8, counterexample: on a text of 550 characters with chunk size 500
    and overlap 50 the first iteration puts the cursor back at 0 without
    any forced advance, the loop runs 10000 iterations, far above
    [ceil(550 / 450)] plus a small constant, and the call returns 10000
    copies of one chunk instead of failing with [ChunkingOverrunError]. *)
Lemma chunking_overrun_counterexample :
  valid_configuration 500 50
  /\ len Sample.stalling_text = 550
  /\ chunk_end Sample.stalling_text 500 0 = 50
  /\ start (chunk_step Sample.stalling_text 500 50 initial_state) = 0
  /\ chunk_text_iterations Sample.stalling_text 500 50 = 10000
  /\ step_bound 550 500 50 100 = 102
  /\ step_bound 550 500 50 100 < chunk_text_iterations Sample.stalling_text 500 50
  /\ chunk_text_call Sample.stalling_text 500 50
     = Returned (replicate (Z.to_nat max_iterations) (replicate 48 "a"%char ++ py "."))
  /\ chunk_text_call Sample.stalling_text 500 50 <> Raised (Exn "ChunkingOverrunError").
Proof.
  assert (chunk_text_run enough_fuel Sample.stalling_text 500 50
          = Some {| start := 0; iteration_count := max_iterations;
                    chunks := replicate (Z.to_nat max_iterations)
                                (replicate 48 "a"%char ++ py ".") |}) as Hrun.
  { unfold chunk_text_run.
    change (truthy Sample.stalling_text) with true. cbv iota.
    unfold initial_state.
    rewrite (chunk_loop_stalled Sample.stalling_text 500 50 0
               (replicate 48 "a"%char ++ py ".")).
    - rewrite Z.sub_0_r. reflexivity.
    - vm_compute. reflexivity.
    - vm_compute. reflexivity.
    - vm_compute. reflexivity.
    - vm_compute. reflexivity.
    - unfold max_iterations. lia.
    - unfold enough_fuel. lia. }
  split_conj.
  - unfold valid_configuration. lia.
  - vm_compute. reflexivity.
  - vm_compute. reflexivity.
  - vm_compute. reflexivity.
  - unfold chunk_text_iterations. rewrite Hrun. reflexivity.
  - vm_compute. reflexivity.
  - unfold chunk_text_iterations. rewrite Hrun. reflexivity.
  - unfold chunk_text_call, chunk_text. rewrite Hrun. reflexivity.
  - discriminate.
Qed.

(** C6, as the code has it. Every chunk returned by [chunk_text] is a
    non-empty run of consecutive characters of the text with no
    whitespace at either end: the stripped text of a slice. A non-empty
    text no longer than the chunk size comes back whole, up to the
    whitespace around it. *)
Theorem chunks_are_trimmed_parts text cs ov :
  Forall (fun c => c <> [] /\ contiguous_part c text /\ trimmed c)
         (chunk_text text cs ov)
  /\ (text <> [] -> len text <= cs ->
      chunk_text text cs ov = if truthy (strip text) then [strip text] else []).
Proof.
  split; [|apply chunk_text_single_window].
  destruct (chunk_text_rule
              (fun st => Forall (fun c => c <> [] /\ contiguous_part c text /\ trimmed c)
                                (chunks st)) text cs ov)
    as [st [_ [-> [_ HP]]]]; [by constructor| |done].
  intros st _ HP. simpl.
  set (sl := slice text (start st) _).
  destruct (strip sl) as [|x c] eqn:Hc; [done|]. simpl.
  apply Forall_app. split; [done|]. constructor; [|done].
  rewrite <- Hc. split; [by rewrite Hc|]. split; [|apply strip_trimmed].
  eapply contiguous_part_trans; [apply strip_contiguous|apply slice_contiguous].
Qed.

(** C6, counterexample: with chunk size 10 and overlap 4 the letters
    [bc] of the text below are in no chunk, and with the default
    configuration the leading space of [" a"] is lost; neither text is
    rebuilt from its chunks. *)
Lemma chunk_coverage_counterexample :
  valid_configuration 10 4
  /\ chunk_text (py "a. bcdefghijklmnopqrstuvwxyz") 10 4
     = [py "a."; py "defghijklm"; py "jklmnopqrs"; py "pqrstuvwxy"; py "vwxyz"]
  /\ dedup_concat 4 (chunk_text (py "a. bcdefghijklmnopqrstuvwxyz") 10 4)
     = py "a.defghijklmnopqrstuvwxyz"
  /\ dedup_concat 4 (chunk_text (py "a. bcdefghijklmnopqrstuvwxyz") 10 4)
     <> py "a. bcdefghijklmnopqrstuvwxyz"
  /\ valid_configuration 500 50
  /\ chunk_text (py " a") 500 50 = [py "a"]
  /\ dedup_concat 50 (chunk_text (py " a") 500 50) <> py " a".
Proof.
  split_conj.
  - unfold valid_configuration. lia.
  - vm_compute. reflexivity.
  - vm_compute. reflexivity.
  - vm_compute. discriminate.
  - unfold valid_configuration. lia.
  - vm_compute. reflexivity.
  - vm_compute. discriminate.
Qed.

End ChunkerClaims.

(** * Properties of the pipeline *)

Section PipelineFacts.
Context `{Backends}.

Lemma encode_length texts vs :
  encode texts = Returned vs -> length vs = length texts.
Proof.
  revert vs. induction texts as [|t texts IH]; simpl; intros vs.
  - by intros [= <-].
  - destruct (embed t); [|done]. destruct (encode texts) as [vs'|]; [|done].
    intros [= <-]. simpl. by rewrite (IH vs').
Qed.

Lemma chunk_records_length source i chunks :
  length (chunk_records source i chunks) = length chunks.
Proof.
  revert i. induction chunks as [|c chunks IH]; intros i; simpl; [done|].
  by rewrite IH.
Qed.

(** [add_document] either leaves the object as it is, or appends as many
    vectors as records. *)
Lemma add_document_effect text source (w : world) :
  (add_document text source w).2 = w
  \/ exists vs ds,
       length vs = length ds
       /\ (add_document text source w).2
          = (RAG (chunk_size w.1) (chunk_overlap w.1) (embedding_dim w.1)
                 (faiss.Index (faiss.d (index w.1)) (faiss.xb (index w.1) ++ vs))
                 (documents w.1 ++ ds) (llm_provider w.1) (hf_client w.1), w.2).
Proof.
  destruct w as [s dk]. unfold add_document, bind, self. cbn [fst snd].
  destruct (DocumentParser.chunk_text _ _ _) as [|c chunks] eqn:Hc; [by left|].
  unfold try_except, call, index_add, bind, self, raise. cbn [fst snd].
  destruct (encode (c :: chunks)) as [vs|e] eqn:He; [|by left].
  unfold faiss.add. destruct (forallb _ vs); [|by left].
  right. exists vs, (chunk_records source 0 (c :: chunks)). split; [|done].
  by rewrite (encode_length _ _ He), chunk_records_length.
Qed.

Lemma add_document_in_sync text source (w : world) :
  in_sync w.1 -> in_sync (add_document text source w).2.1.
Proof.
  intros Hs. destruct (add_document_effect text source w) as [->|[vs [ds [Hl ->]]]]; [done|].
  unfold in_sync, faiss.ntotal in *. simpl. rewrite !length_app. lia.
Qed.

Lemma clear_in_sync (w : world) : in_sync (clear w).2.1.
Proof. done. Qed.

Lemma perform_in_sync op (w : world) : in_sync w.1 -> in_sync (perform op w).2.1.
Proof.
  destruct op as [text source|]; [apply add_document_in_sync|intros _; apply clear_in_sync].
Qed.

Lemma execute_in_sync ops (w : world) : in_sync w.1 -> in_sync (execute ops w).1.
Proof.
  revert w. induction ops as [|op ops IH]; intros w Hs; simpl; [done|].
  by apply IH, perform_in_sync.
Qed.

(** [load_index] on a directory holding both files. *)
Lemma load_index_snapshot path dir index' documents' (w : world) :
  w.2 !! path = Some dir ->
  index_faiss dir = Some index' ->
  documents_json dir = Some documents' ->
  load_index path w
  = (Returned tt,
     (RAG (chunk_size w.1) (chunk_overlap w.1) (embedding_dim w.1) index' documents'
          (llm_provider w.1) (hf_client w.1), w.2)).
Proof.
  intros Hdir Hi Hd. destruct w as [s dk]. cbn [fst snd] in *.
  unfold load_index, bind, read_disk. cbn [fst snd].
  rewrite Hdir, Hi. unfold set_index, set_documents. cbn [fst snd].
  by rewrite Hd.
Qed.

End PipelineFacts.

Section PipelineClaims.
Context `{Backends}.
Import PyStr.

(** C1. Index/store sync: after any sequence of [add_document] and
    [clear] calls on a freshly constructed object, whether the calls
    return or raise, the number of stored chunk records equals the number
    of vectors in the index. *)
Theorem index_store_in_sync (cs ov dim : Z) (provider : str) (client : option str)
    (dk : disk) (ops : list operation) :
  let s := (execute ops (init cs ov dim provider client, dk)).1 in
  Z.of_nat (length (documents s)) = faiss.ntotal (index s).
Proof.
  simpl. symmetry. by apply (execute_in_sync ops).
Qed.

(** C10. When chunking the text yields no chunks, [add_document] returns
    normally and leaves the index, the stored records and the rest of the
    object unchanged. *)
Theorem add_document_without_chunks text source (w : world) :
  DocumentParser.chunk_text text (chunk_size w.1) (chunk_overlap w.1) = [] ->
  add_document text source w = (Returned tt, w).
Proof.
  intros Hc. unfold add_document, bind, self. simpl. by rewrite Hc.
Qed.

(** An empty or whitespace-only text is such a text. *)
Lemma add_document_blank text source (w : world) :
  Forall (fun c => isspace c = true) text ->
  add_document text source w = (Returned tt, w).
Proof.
  intros Hws. unfold add_document, bind, self. simpl.
  by rewrite chunk_text_whitespace.
Qed.

(** C3, on the code. [retrieve] has no treatment of its own for
    [top_k <= 0]: on a non-empty store, for every query the encoder
    embeds, it hands [min(top_k, len(documents)) <= 0] to [index.search],
    whose assertion [k > 0] fails. The call raises [AssertionError] where
    the specification has the empty list, and leaves the object and the disk as
    they are. *)
Theorem retrieve_nonpositive_top_k_raises query top_k v (w : world) :
  documents w.1 <> [] ->
  top_k <= 0 ->
  embed query = Returned v ->
  retrieve query top_k w = (Raised (Exn "AssertionError"), w).
Proof.
  intros Hd Hk Hv. destruct w as [s dk]. cbn [fst] in Hd.
  unfold retrieve, bind, self, call. cbn [fst snd].
  destruct (Z.eqb_spec (Z.of_nat (length (documents s))) 0) as [He|_].
  - destruct (documents s); [done|simpl in He; lia].
  - cbn [encode]. rewrite Hv. cbn [fst snd]. unfold faiss.search.
    destruct (negb (_ =? faiss.d (index s))); [done|].
    destruct (Z.ltb_spec 0 (Z.min top_k (Z.of_nat (length (documents s))))); [lia|done].
Qed.

(** C4, as the code has it. [load_index] compares no dimensions: for
    every snapshot directory holding both files, whatever the dimension
    of the saved index, the call returns normally, puts the saved index
    and the saved records in place of those in memory and keeps
    [embedding_dim] as it was. *)
Theorem load_index_checks_no_dimension path dir index' documents' (w : world) :
  w.2 !! path = Some dir ->
  index_faiss dir = Some index' ->
  documents_json dir = Some documents' ->
  exists s',
    load_index path w = (Returned tt, (s', w.2))
    /\ index s' = index'
    /\ documents s' = documents'
    /\ embedding_dim s' = embedding_dim w.1.
Proof.
  intros Hdir Hi Hd.
  rewrite (load_index_snapshot path dir index' documents' w Hdir Hi Hd).
  eexists. split; [reflexivity|]. done.
Qed.

(** C5. [synthesize_answer] returns a string for every query and every
    context, in every configuration of the object and whatever the
    generation backends do, and leaves the object untouched; when the
    backend it calls raises, the string is the extractive fallback. *)
Theorem synthesize_answer_never_raises query context_docs (w : world) :
  exists answer,
    synthesize_answer query context_docs w = (Returned answer, w)
    /\ (context_docs = [] -> answer = no_information)
    /\ (context_docs <> [] ->
        generation_raises w.1 (build_prompt query context_docs) ->
        answer = _fallback_answer query context_docs).
Proof.
  destruct w as [s dk]. unfold generation_raises. cbn [fst].
  destruct context_docs as [|sd rest].
  { exists no_information. split_conj; [done|done|]. by intros []. }
  unfold synthesize_answer, try_except, bind, self, call, ret. cbn [fst snd].
  destruct (decide (llm_provider s = py "openai")) as [Ho|Ho].
  - destruct (openai_chat_completion _) as [content|e] eqn:Hc.
    + exists (strip content). split_conj; [done|done|].
      intros _ [[_ [e He]]|[Hh _]]; [congruence|].
      rewrite Hh in Ho. discriminate Ho.
    + by eexists.
  - destruct (decide (llm_provider s = py "huggingface")) as [Hh|Hh].
    + destruct (hf_client s) as [client|] eqn:Hcl.
      * destruct (hf_text_generation _) as [response|e] eqn:Hr.
        -- exists (strip response). split_conj; [done|done|].
           intros _ [[Ho' _]|[_ [_ [e He]]]]; congruence.
        -- by eexists.
      * by eexists.
    + by eexists.
Qed.

(** C9. From every state of the object and of the disk, [save_index],
    then [clear], then [load_index] on the same path all return and
    restore the object: [get_document_count()], [list_documents()] and
    the result of [retrieve] for every query and [top_k] are what they
    were before. *)
Theorem save_clear_load_round_trip path (w : world) :
  exists w1 w2 w3,
    save_index path w = (Returned tt, w1)
    /\ clear w1 = (Returned tt, w2)
    /\ load_index path w2 = (Returned tt, w3)
    /\ w3.1 = w.1
    /\ (get_document_count w3).1 = (get_document_count w).1
    /\ (list_documents w3).1 = (list_documents w).1
    /\ forall query top_k, (retrieve query top_k w3).1 = (retrieve query top_k w).1.
Proof.
  destruct w as [s dk].
  assert (exists dk', save_index path (s, dk) = (Returned tt, (s, dk'))
                      /\ exists dir, dk' !! path = Some dir
                                     /\ index_faiss dir = Some (index s)
                                     /\ documents_json dir = Some (documents s))
    as [dk' [Hsave [dir [Hdir [Hi Hd]]]]].
  { unfold save_index, mkdir_exist_ok, write_file, bind, self, read_disk, write_disk, ret.
    cbn [fst snd].
    destruct (dk !! path) as [dir0|] eqn:Hp; cbn [fst snd].
    - rewrite Hp. cbn [fst snd]. rewrite lookup_insert_eq.
      eexists. split; [reflexivity|]. eexists. rewrite lookup_insert_eq. done.
    - rewrite lookup_insert_eq. cbn [fst snd]. rewrite lookup_insert_eq.
      eexists. split; [reflexivity|]. eexists. rewrite lookup_insert_eq. done. }
  eexists (s, dk'), _, _. split; [exact Hsave|]. split; [reflexivity|].
  split.
  { unfold clear, bind, self, set_index, set_documents. cbn [fst snd].
    apply (load_index_snapshot path dir (index s) (documents s)); done. }
  cbn [fst snd].
  assert (RAG (chunk_size s) (chunk_overlap s) (embedding_dim s) (index s) (documents s)
              (llm_provider s) (hf_client s) = s) as Hs by (by destruct s).
  split_conj.
  - exact Hs.
  - unfold get_document_count, bind, self, ret. done.
  - unfold list_documents, bind, self, ret. done.
  - intros query top_k. unfold retrieve, bind, self. cbn [fst snd documents index].
    destruct (_ =? 0); [done|].
    unfold call. destruct (encode [query]) as [[|q qs]|e]; [done| |done].
    cbn [fst snd]. by destruct (faiss.search _ _ _).
Qed.

End PipelineClaims.

(** * Instances on the sample objects *)

Section Instances.
Import PyStr.

Lemma retrieve_nonpositive_top_k_raises_witness :
  retrieve (H := Sample.backends) (py "anything") 0 (Sample.loaded, ∅)
  = (Raised (Exn "AssertionError"), (Sample.loaded, ∅)).
Proof.
  apply (retrieve_nonpositive_top_k_raises (H := Sample.backends)
           (py "anything") 0 [8; 0] (Sample.loaded, ∅)).
  - discriminate.
  - lia.
  - reflexivity.
Defined.

Lemma add_document_without_chunks_witness :
  add_document (H := Sample.backends) (py "   " ++ nl) (py "blank.txt") (Sample.loaded, ∅)
  = (Returned tt, (Sample.loaded, ∅)).
Proof.
  apply (add_document_without_chunks (H := Sample.backends)
           (py "   " ++ nl) (py "blank.txt") (Sample.loaded, ∅)).
  vm_compute. reflexivity.
Defined.

Lemma load_index_checks_no_dimension_witness :
  exists s',
    load_index (py "faiss_index")
      (Sample.loaded, {[ py "faiss_index" := Sample.other_snapshot ]})
    = (Returned tt, (s', {[ py "faiss_index" := Sample.other_snapshot ]}))
    /\ index s' = faiss.Index 3 [[1; 2; 3]]
    /\ documents s' = [ {| text := py "x"; source := py "c.txt"; chunk_id := 0 |} ]
    /\ embedding_dim s' = 2.
Proof.
  assert (({[ py "faiss_index" := Sample.other_snapshot ]} : disk) !! py "faiss_index"
          = Some Sample.other_snapshot) as Hdir by apply lookup_singleton_eq.
  exact (load_index_checks_no_dimension (py "faiss_index") Sample.other_snapshot
           (faiss.Index 3 [[1; 2; 3]])
           [ {| text := py "x"; source := py "c.txt"; chunk_id := 0 |} ]
           (Sample.loaded, {[ py "faiss_index" := Sample.other_snapshot ]})
           Hdir eq_refl eq_refl).
Defined.

(** C4, counterexample: the object is configured for dimension 2, the
    snapshot was written with dimension 3; [load_index] returns normally
    and the index in memory now has dimension 3. *)
Lemma snapshot_dimension_counterexample :
  embedding_dim Sample.loaded = 2
  /\ index_faiss Sample.other_snapshot = Some (faiss.Index 3 [[1; 2; 3]])
  /\ (load_index (py "faiss_index")
        (Sample.loaded, {[ py "faiss_index" := Sample.other_snapshot ]})).1
     = Returned tt
  /\ (load_index (py "faiss_index")
        (Sample.loaded, {[ py "faiss_index" := Sample.other_snapshot ]})).1
     <> Raised (Exn "SnapshotIncompatibleError")
  /\ faiss.d (index (load_index (py "faiss_index")
        (Sample.loaded, {[ py "faiss_index" := Sample.other_snapshot ]})).2.1) = 3.
Proof.
  rewrite (load_index_snapshot (py "faiss_index") Sample.other_snapshot
             (faiss.Index 3 [[1; 2; 3]])
             [ {| text := py "x"; source := py "c.txt"; chunk_id := 0 |} ]);
    [|apply lookup_singleton_eq|reflexivity|reflexivity].
  split_conj; try reflexivity. discriminate.
Qed.

(** The chat client of the sample backends raises: the answer is the
    extractive fallback. *)
Example synthesize_answer_falls_back :
  (synthesize_answer (H := Sample.backends) (py "What is alpha?") Sample.context
     (Sample.loaded, ∅)).1
  = Returned (py "Based on the available documents:" ++ nl ++ nl
              ++ py "1. From a.txt:" ++ nl ++ py "Alpha beta." ++ nl ++ nl).
Proof. vm_compute. reflexivity. Qed.

(** Two ingestions around a clear: two chunks from the last document, in
    the index and in the store. *)
Example ingest_clear_ingest :
  let s := (execute (H := Sample.backends)
              [Ingest (py "First text.") (py "a.txt"); ClearAll;
               Ingest (py "aaaa bbbb cccc") (py "b.txt")]
              (init 6 1 2 (py "openai") None, ∅)).1 in
  index s = faiss.Index 2 [[4; 0]; [4; 0]; [4; 0]]
  /\ map text (documents s) = [py "aaaa"; py "bbbb"; py "cccc"]
  /\ map chunk_id (documents s) = [0; 1; 2].
Proof. vm_compute. done. Qed.

End Instances.

(** * Further properties of the pipeline *)

Section ReadOnly.
Context `{Backends}.
Import PyStr.

Lemma synthesize_answer_returns q context_docs (w : world) :
  exists a, synthesize_answer q context_docs w = (Returned a, w).
Proof.
  destruct w as [s dk]. destruct context_docs as [|sd rest]; [by eexists|].
  unfold synthesize_answer, try_except, bind, self, call, ret. cbn [fst snd].
  destruct (decide (llm_provider s = py "openai")).
  - destruct (openai_chat_completion _); by eexists.
  - destruct (decide (llm_provider s = py "huggingface")); [|by eexists].
    destruct (hf_client s); [|by eexists].
    destruct (hf_text_generation _); by eexists.
Qed.

Lemma retrieve_state q top_k (w : world) : (retrieve q top_k w).2 = w.
Proof.
  destruct w as [s dk]. unfold retrieve, bind, self, call. cbn [fst snd].
  destruct (_ =? 0); [done|].
  destruct (encode [q]) as [[|v vs]|e]; [done| |done].
  cbn [fst snd]. by destruct (faiss.search _ _ _).
Qed.

Lemma query_unfold q top_k (w : world) :
  query q top_k w
  = match (retrieve q top_k w).1 with
    | Raised e => (Raised e, w)
    | Returned docs =>
        match (synthesize_answer q docs w).1 with
        | Returned a => (Returned {| answer := a; sources := map source_entry_of docs |}, w)
        | Raised e => (Raised e, w)
        end
    end.
Proof.
  unfold query, bind. pose proof (retrieve_state q top_k w) as Hr.
  destruct (retrieve q top_k w) as [[docs|e] w1]; cbn [fst snd] in *; subst w1; [|done].
  destruct (synthesize_answer_returns q docs w) as [a ->]. done.
Qed.

(** X1. The reading methods [retrieve], [synthesize_answer], [query],
    [get_document_count] and [list_documents] leave the object and the
    disk as they are, whether they return or raise. *)
Theorem reading_methods_change_nothing q top_k context_docs (w : world) :
  (retrieve q top_k w).2 = w
  /\ (synthesize_answer q context_docs w).2 = w
  /\ (query q top_k w).2 = w
  /\ (get_document_count w).2 = w
  /\ (list_documents w).2 = w.
Proof.
  split_conj; [apply retrieve_state| | |done|done].
  - by destruct (synthesize_answer_returns q context_docs w) as [a ->].
  - rewrite query_unfold. destruct ((retrieve q top_k w).1) as [docs|e]; [|done].
    by destruct ((synthesize_answer q docs w).1).
Qed.

(** X2. On an empty store [query] returns the fixed message and an empty
    list of sources for every query and every [top_k]; neither the encoder
    nor a generation backend is called, so nothing they do can make it
    raise. *)
Theorem query_on_empty_store q top_k (w : world) :
  documents w.1 = [] ->
  query q top_k w = (Returned {| answer := no_information; sources := [] |}, w).
Proof.
  intros Hd. destruct w as [s dk]. cbn [fst] in Hd.
  unfold query, retrieve, bind, self. cbn [fst snd]. by rewrite Hd.
Qed.

Lemma preview_bound (t : str) (n : Z) :
  0 <= n ->
  len (if n <? len t then prefix t n ++ py "..." else t) <= n + 3.
Proof.
  intros Hn. destruct (Z.ltb_spec n (len t)).
  - unfold prefix. pose proof (len_slice_window t 0 n Hn) as Hw.
    rewrite Z.add_0_l in Hw. unfold len in *. rewrite length_app. simpl. lia.
  - lia.
Qed.

(** X3. [query] raises exactly when [retrieve] raises, with the same
    exception; otherwise it returns one source entry per retrieved record,
    in retrieval order, each with the record's source, chunk number and
    score and a preview of at most 203 characters that is the whole text
    when the text has at most 200. *)
Theorem query_follows_retrieve q top_k (w : world) :
  match (retrieve q top_k w).1 with
  | Raised e => (query q top_k w).1 = Raised e
  | Returned docs =>
      exists a,
        (query q top_k w).1 = Returned a
        /\ map entry_source (sources a) = map (fun sd => source (doc sd)) docs
        /\ map entry_chunk_id (sources a) = map (fun sd => chunk_id (doc sd)) docs
        /\ map entry_score (sources a) = map score docs
        /\ Forall (fun e => len (entry_preview e) <= 203) (sources a)
        /\ Forall2 (fun e sd => len (text (doc sd)) <= 200 -> entry_preview e = text (doc sd))
                   (sources a) docs
  end.
Proof.
  rewrite query_unfold. destruct ((retrieve q top_k w).1) as [docs|e]; [|done].
  destruct (synthesize_answer_returns q docs w) as [a ->]. cbn [fst].
  eexists. split; [reflexivity|]. cbn [sources].
  split_conj.
  - by rewrite map_map.
  - by rewrite map_map.
  - by rewrite map_map.
  - apply Forall_map, Forall_forall. intros sd _. apply (preview_bound _ 200). lia.
  - apply Forall2_fmap_l, Forall_Forall2_diag, Forall_forall. intros sd _ Hl.
    unfold source_entry_of. cbn [entry_preview].
    destruct (Z.ltb_spec 200 (len (text (doc sd)))); [lia|done].
Qed.

Lemma getitem_elem_of {A} (l : list A) (i : Z) (x : A) :
  getitem l i = Returned x -> x ∈ l.
Proof.
  unfold getitem. destruct (_ && _); [|done].
  destruct (l !! _) as [y|] eqn:Hy; [|done].
  intros [= <-]. by eapply list_elem_of_lookup_2.
Qed.

Lemma collect_results_stored ds hits results :
  collect_results ds hits = Returned results ->
  Forall (fun r => doc r ∈ ds) results /\ (length results <= length hits)%nat.
Proof.
  revert results. induction hits as [|[idx distance] hits IH]; intros results; simpl.
  - intros [= <-]. split; [constructor|done].
  - destruct (idx <? Z.of_nat (length ds)).
    + destruct (getitem ds idx) as [d|] eqn:Hd; [|done].
      destruct (collect_results ds hits) as [rs|]; [|done].
      intros [= <-]. destruct (IH rs eq_refl) as [Hall Hlen].
      split; [constructor; [by eapply getitem_elem_of|done]|simpl; lia].
    + intros Hr. destruct (IH results Hr). split; [done|lia].
Qed.

(** X4. Every record [retrieve] returns is a copy of a stored record, and
    it returns at most [top_k] of them and at most as many as are stored. *)
Theorem retrieve_returns_stored_records q top_k results (w w' : world) :
  retrieve q top_k w = (Returned results, w') ->
  Forall (fun r => doc r ∈ documents w.1) results
  /\ Z.of_nat (length results) <= Z.max 0 top_k
  /\ (length results <= length (documents w.1))%nat.
Proof.
  destruct w as [s dk]. unfold retrieve, bind, self, call. cbn [fst snd].
  destruct (Z.eqb_spec (Z.of_nat (length (documents s))) 0).
  { intros [= <- _]. split_conj; [constructor|simpl; lia|simpl; lia]. }
  destruct (encode [q]) as [[|v vs]|e]; [done| |done].
  cbn [fst snd].
  destruct (faiss.search _ _ _) as [hits|] eqn:Hs; [|done]. cbn [fst snd].
  destruct (collect_results _ _) as [rs|] eqn:Hc; [|done].
  intros [= <- _]. apply collect_results_stored in Hc as [Hall Hlen].
  split; [done|].
  unfold faiss.search in Hs.
  destruct (negb (_ =? faiss.d (index s))); [done|].
  destruct (Z.ltb_spec 0 (Z.min top_k (Z.of_nat (length (documents s))))); [|done].
  injection Hs as <-. rewrite length_take in Hlen. lia.
Qed.

End ReadOnly.

Section Ingestion.
Context `{Backends}.
Import PyStr.

Lemma chunk_records_fields src i chunks :
  map text (chunk_records src i chunks) = chunks
  /\ Forall (fun d => source d = src) (chunk_records src i chunks)
  /\ map chunk_id (chunk_records src i chunks) = seqZ i (Z.of_nat (length chunks)).
Proof.
  revert i. induction chunks as [|c chunks IH]; intros i.
  - by split_conj.
  - destruct (IH (i + 1)) as [Ht [Hs Hi]]. simpl chunk_records.
    split_conj; [simpl; by rewrite Ht|by constructor|].
    rewrite seqZ_cons by (simpl; lia). simpl map. rewrite Hi. f_equal.
    rewrite Z.add_1_r. f_equal. simpl length. lia.
Qed.

(** The two outcomes of [add_document]. *)
Lemma add_document_cases txt src (w : world) :
  (exists e, add_document txt src w = (Raised e, w))
  \/ (exists vs,
        length vs = length (DocumentParser.chunk_text txt (chunk_size w.1) (chunk_overlap w.1))
        /\ add_document txt src w
           = (Returned tt,
              (RAG (chunk_size w.1) (chunk_overlap w.1) (embedding_dim w.1)
                   (faiss.Index (faiss.d (index w.1)) (faiss.xb (index w.1) ++ vs))
                   (documents w.1
                      ++ chunk_records src 0
                           (DocumentParser.chunk_text txt (chunk_size w.1) (chunk_overlap w.1)))
                   (llm_provider w.1) (hf_client w.1), w.2))).
Proof.
  destruct w as [s dk]. unfold add_document, bind, self. cbn [fst snd].
  destruct (DocumentParser.chunk_text _ _ _) as [|c chunks] eqn:Hc.
  { right. exists []. split; [done|]. rewrite !app_nil_r. by destruct s as [? ? ? []]. }
  unfold try_except, call, index_add, bind, self, raise. cbn [fst snd].
  destruct (encode (c :: chunks)) as [vs|e] eqn:He; [|left; by eexists].
  unfold faiss.add. destruct (forallb _ vs); [|left; by eexists].
  right. exists vs. split; [by apply encode_length|done].
Qed.

(** X5. A call of [add_document] that raises, in the encoder or in the
    index, leaves the index, the stored records and the disk exactly as
    they were. *)
Theorem add_document_failure_changes_nothing txt src e (w w' : world) :
  add_document txt src w = (Raised e, w') -> w' = w.
Proof.
  intros Ha. destruct (add_document_cases txt src w) as [[e' He]|[vs [_ Hr]]].
  - rewrite He in Ha. by injection Ha as _ <-.
  - rewrite Hr in Ha. discriminate Ha.
Qed.

(** X6. A call of [add_document] that returns has appended, after the
    records already stored, one record per chunk of the text, in chunk
    order, each with the given source and numbered 0, 1, 2, ..., and one
    vector per chunk to the index; configuration and disk are unchanged. *)
Theorem add_document_appends_numbered_records txt src (w w' : world) :
  add_document txt src w = (Returned tt, w') ->
  let chunks := DocumentParser.chunk_text txt (chunk_size w.1) (chunk_overlap w.1) in
  exists new,
    documents w'.1 = documents w.1 ++ new
    /\ map text new = chunks
    /\ Forall (fun d => source d = src) new
    /\ map chunk_id new = seqZ 0 (Z.of_nat (length chunks))
    /\ faiss.ntotal (index w'.1) = faiss.ntotal (index w.1) + Z.of_nat (length chunks)
    /\ faiss.d (index w'.1) = faiss.d (index w.1)
    /\ (chunk_size w'.1, chunk_overlap w'.1, embedding_dim w'.1)
       = (chunk_size w.1, chunk_overlap w.1, embedding_dim w.1)
    /\ w'.2 = w.2.
Proof.
  intros Ha chunks. destruct (add_document_cases txt src w) as [[e' He]|[vs [Hl Hr]]].
  { rewrite He in Ha. discriminate Ha. }
  rewrite Hr in Ha. injection Ha as <-. fold chunks in Hl |- *.
  destruct (chunk_records_fields src 0 chunks) as [Ht [Hs Hi]].
  exists (chunk_records src 0 chunks). cbn [fst snd documents index chunk_size
    chunk_overlap embedding_dim faiss.d].
  split_conj; try done.
  unfold faiss.ntotal. cbn [faiss.xb]. rewrite length_app. lia.
Qed.

(** X7. After a call of [add_document] that returns, the document count
    has grown by the number of chunks of the text, every source listed
    before is still listed, and the new source is listed as soon as the
    text gave a chunk. *)
Theorem add_document_count_and_sources txt src (w w' : world) :
  add_document txt src w = (Returned tt, w') ->
  let chunks := DocumentParser.chunk_text txt (chunk_size w.1) (chunk_overlap w.1) in
  exists n srcs n' srcs',
    (get_document_count w).1 = Returned n /\ (list_documents w).1 = Returned srcs
    /\ (get_document_count w').1 = Returned n' /\ (list_documents w').1 = Returned srcs'
    /\ n' = n + Z.of_nat (length chunks)
    /\ srcs ⊆ srcs'
    /\ (chunks <> [] -> src ∈ srcs').
Proof.
  intros Ha chunks.
  destruct (add_document_cases txt src w) as [[e' He]|[vs [Hl Hr]]].
  { rewrite He in Ha. discriminate Ha. }
  rewrite Hr in Ha. injection Ha as <-. fold chunks in Hl |- *.
  unfold get_document_count, list_documents, bind, self, ret. cbn [fst snd documents].
  do 4 eexists. do 4 (split; [reflexivity|]).
  rewrite length_app, chunk_records_length, map_app, list_to_set_app_L.
  split_conj; [lia|apply union_subseteq_l|].
  destruct chunks as [|c chunks']; [done|]. intros _. simpl.
  apply elem_of_union_r, elem_of_union_l. by apply elem_of_singleton.
Qed.

End Ingestion.

Section Snapshots.
Context `{Backends}.
Import PyStr.

Lemma save_index_result (path : str) (s : RAGSystem) (dk : disk) :
  save_index path (s, dk)
  = (Returned tt, (s, <[path := Dir (Some (index s)) (Some (documents s))]> dk)).
Proof.
  unfold save_index, mkdir_exist_ok, write_file, bind, self, read_disk, write_disk, ret.
  cbn [fst snd].
  destruct (dk !! path) as [dir0|] eqn:Hp; cbn [fst snd].
  - rewrite Hp. cbn [fst snd]. rewrite lookup_insert_eq.
    cbn [index_faiss documents_json]. by rewrite insert_insert_eq.
  - rewrite lookup_insert_eq. cbn [fst snd]. rewrite lookup_insert_eq.
    cbn [index_faiss documents_json]. by rewrite !insert_insert_eq.
Qed.

(** X8. [save_index] returns from every state, leaves the object as it
    is, puts the current index and the current records in the directory at
    its path, whatever was there, and touches no other directory. *)
Theorem save_index_writes_one_directory (path : str) (w : world) :
  exists w',
    save_index path w = (Returned tt, w')
    /\ w'.1 = w.1
    /\ w'.2 !! path
       = Some {| index_faiss := Some (index w.1); documents_json := Some (documents w.1) |}
    /\ forall other, other <> path -> w'.2 !! other = w.2 !! other.
Proof.
  destruct w as [s dk]. rewrite save_index_result. eexists. split; [reflexivity|].
  cbn [fst snd]. split_conj; [done|apply lookup_insert_eq|].
  intros other Ho. by apply lookup_insert_ne.
Qed.

Lemma perform_disk op (w : world) : (perform op w).2.2 = w.2.
Proof.
  destruct op as [txt src|]; simpl; [|done].
  destruct (add_document_cases txt src w) as [[e ->]|[vs [_ ->]]]; done.
Qed.

Lemma execute_disk ops (w : world) : (execute ops w).2 = w.2.
Proof.
  revert w. induction ops as [|op ops IH]; intros w; simpl; [done|].
  by rewrite IH, perform_disk.
Qed.

(** X9. A snapshot outlives the object's later history: after
    [save_index], any sequence of [add_document] and [clear] calls,
    returning or raising, and then [load_index] on the same path, the
    index and the records are those that were saved. *)
Theorem snapshot_survives_mutations (path : str) (ops : list operation) (w : world) :
  exists w3,
    load_index path (execute ops (save_index path w).2) = (Returned tt, w3)
    /\ index w3.1 = index w.1
    /\ documents w3.1 = documents w.1.
Proof.
  destruct w as [s dk]. rewrite save_index_result. cbn [snd].
  set (w1 := (s, _)). set (w2 := execute ops w1).
  rewrite (load_index_snapshot path (Dir (Some (index s)) (Some (documents s)))
             (index s) (documents s) w2); [by eexists| |done|done].
  unfold w2. rewrite execute_disk. apply lookup_insert_eq.
Qed.

(** X10. [load_index] is not atomic: on a directory that holds
    [index.faiss] but no [documents.json] it raises [FileNotFoundError]
    after the index in memory has been replaced by the saved one, the
    stored records being left as they were. *)
Theorem load_index_incomplete_snapshot (path : str) (dir : directory)
    (index' : faiss.IndexFlatL2) (w : world) :
  w.2 !! path = Some dir ->
  index_faiss dir = Some index' ->
  documents_json dir = None ->
  exists w',
    load_index path w = (Raised (Exn "FileNotFoundError"), w')
    /\ index w'.1 = index'
    /\ documents w'.1 = documents w.1
    /\ w'.2 = w.2.
Proof.
  intros Hdir Hi Hd. destruct w as [s dk]. cbn [fst snd] in *.
  unfold load_index, bind, read_disk. cbn [fst snd].
  rewrite Hdir, Hi. unfold set_index, raise. cbn [fst snd]. rewrite Hd.
  by eexists.
Qed.

Lemma perform_command_invariant c (w : world) :
  in_sync w.1 -> map_Forall (fun _ dir => complete_snapshot dir) w.2 ->
  in_sync (perform_command c w).2.1
  /\ map_Forall (fun _ dir => complete_snapshot dir) (perform_command c w).2.2.
Proof.
  intros Hs Hd. destruct c as [op|path|path]; cbn [perform_command].
  - split; [by apply perform_in_sync|by rewrite perform_disk].
  - destruct w as [s dk]. rewrite save_index_result. cbn [fst snd] in *.
    split; [done|]. apply map_Forall_insert_2; [|done].
    exists (index s), (documents s). by split_conj.
  - destruct (w.2 !! path) as [dir|] eqn:Hp.
    + destruct (Hd path dir Hp) as [i [ds [Hi [Hds Hn]]]].
      rewrite (load_index_snapshot path dir i ds w Hp Hi Hds). by split.
    + destruct w as [s dk]. cbn [fst snd] in *.
      unfold load_index, bind, read_disk. cbn [fst snd]. by rewrite Hp.
Qed.

Lemma execute_commands_invariant cmds (w : world) :
  in_sync w.1 -> map_Forall (fun _ dir => complete_snapshot dir) w.2 ->
  in_sync (execute_commands cmds w).1.
Proof.
  revert w. induction cmds as [|c cmds IH]; intros w Hs Hd; simpl; [done|].
  destruct (perform_command_invariant c w Hs Hd). by apply IH.
Qed.

(** X11. The index and the store stay the same size through snapshots as
    well: from a fresh object, over a disk whose snapshot directories are
    complete (an empty disk, say), after any sequence of [add_document],
    [clear], [save_index] and [load_index] calls on any paths the number
    of stored records equals the number of vectors in the index. *)
Theorem in_sync_through_snapshots (cs ov dim : Z) (provider : str) (client : option str)
    (dk : disk) (cmds : list command) :
  map_Forall (fun _ dir => complete_snapshot dir) dk ->
  let s := (execute_commands cmds (init cs ov dim provider client, dk)).1 in
  Z.of_nat (length (documents s)) = faiss.ntotal (index s).
Proof.
  intros Hd. simpl. symmetry. by apply (execute_commands_invariant cmds).
Qed.

(** X12. [clear] returns from every state with no record left and an
    empty index of the configured dimension, whatever the dimension of the
    index before, and does not touch configuration or disk; [query] then
    answers every question with the fixed message and no source. *)
Theorem clear_empties_the_store (w : world) :
  exists w',
    clear w = (Returned tt, w')
    /\ documents w'.1 = []
    /\ faiss.ntotal (index w'.1) = 0
    /\ faiss.d (index w'.1) = embedding_dim w.1
    /\ (chunk_size w'.1, chunk_overlap w'.1, embedding_dim w'.1)
       = (chunk_size w.1, chunk_overlap w.1, embedding_dim w.1)
    /\ w'.2 = w.2
    /\ forall q top_k,
         query q top_k w' = (Returned {| answer := no_information; sources := [] |}, w').
Proof.
  destruct w as [s dk]. eexists. split; [reflexivity|].
  by split_conj.
Qed.

End Snapshots.

(** * Further properties of the chunker *)

Section ChunkerProgress.
Import PyStr DocumentParser.

Lemma adjust_inside n i : 0 <= i <= n -> adjust n i = i.
Proof. intros Hi. unfold adjust. destruct (Z.ltb_spec i 0); lia. Qed.

Lemma chunk_end_after_start text cs s :
  0 < cs -> s < len text -> s < chunk_end text cs s.
Proof.
  intros Hcs Hs. destruct (chunk_end_cases text cs s) as [->|[d [Hd [Hr ->]]]]; [lia|].
  destruct (rfind_bounds text d s (s + cs) Hd Hs Hr) as [Hlo _].
  assert (0 < len d) by (unfold len; destruct d; simpl; [done|lia]).
  pose proof (len_nonneg text). unfold adjust in Hlo.
  destruct (Z.ltb_spec s 0); lia.
Qed.

Lemma chunk_end_upper text cs s :
  0 <= cs -> 0 <= s < len text -> chunk_end text cs s <= s + cs.
Proof.
  intros Hcs Hs. destruct (chunk_end_cases text cs s) as [->|[d [Hd [Hr ->]]]]; [lia|].
  destruct (rfind_bounds text d s (s + cs) Hd ltac:(lia) Hr) as [_ Hhi].
  unfold adjust in Hhi. destruct (Z.ltb_spec (s + cs) 0); lia.
Qed.

(** X13. With a positive chunk size every iteration takes a non-empty
    window that starts at the cursor and has at most [chunk_size]
    characters, so the branch for [end <= start] is never taken: the next
    cursor is [end - overlap], or the end of the text once [end] has
    reached it. *)
Theorem positive_chunk_size_window text cs ov s :
  0 < cs -> 0 <= s < len text ->
  s < chunk_end text cs s <= s + cs
  /\ next_start text cs ov s (chunk_end text cs s)
     = if chunk_end text cs s <? len text then chunk_end text cs s - ov else len text.
Proof.
  intros Hcs Hs.
  pose proof (chunk_end_after_start text cs s Hcs ltac:(lia)).
  pose proof (chunk_end_upper text cs s ltac:(lia) Hs).
  split; [lia|]. unfold next_start.
  destruct (Z.leb_spec (chunk_end text cs s) s); [lia|done].
Qed.

Lemma visible_whitespace ws : Forall (fun c => isspace c = true) ws -> visible ws = [].
Proof.
  unfold visible. induction 1 as [|c ws Hc _ IH]; [done|].
  rewrite filter_cons_False; [done|]. by rewrite Hc.
Qed.

Lemma visible_app a b : visible (a ++ b) = visible a ++ visible b.
Proof. apply filter_app. Qed.

Lemma visible_strip s : visible (strip s) = visible s.
Proof.
  unfold strip.
  destruct (lstrip_suffix s) as [w1 [H1 Hw1]].
  destruct (rstrip_prefix (lstrip s)) as [w2 [H2 Hw2]].
  rewrite H1 at 2. rewrite H2 at 2.
  by rewrite !visible_app, (visible_whitespace w1), (visible_whitespace w2), app_nil_r.
Qed.

(** The slice of an iteration continues the prefix before the cursor. *)
Lemma take_slice text s e :
  0 <= s -> s <= e -> s <= len text ->
  take (Z.to_nat (Z.min e (len text))) text
  = take (Z.to_nat s) text ++ slice text s e.
Proof.
  intros Hs He Hl. unfold slice. pose proof (len_nonneg text).
  rewrite (adjust_inside _ s) by lia.
  replace (adjust (len text) e) with (Z.min e (len text))
    by (unfold adjust; destruct (Z.ltb_spec e 0); lia).
  rewrite take_take_drop. f_equal. lia.
Qed.

(** X14. Without overlap nothing visible is lost or repeated: with
    overlap 0, a positive chunk size and a text of at most 10000
    characters, the chunks put end to end hold exactly the non-whitespace
    characters of the text, in order, and the loop takes at most as many
    iterations as the text has characters. *)
Theorem zero_overlap_keeps_visible_text text cs :
  0 < cs -> len text <= max_iterations ->
  visible (concat (chunk_text text cs 0)) = visible text
  /\ chunk_text_iterations text cs 0 <= len text.
Proof.
  intros Hcs Hl. pose proof (len_nonneg text) as Hn.
  destruct (chunk_text_rule
              (fun st => 0 <= iteration_count st <= start st /\ start st <= len text
                         /\ visible (concat (chunks st))
                            = visible (take (Z.to_nat (start st)) text))
              text cs 0) as [st [Hrun [-> [-> [Hc [Hs Hv]]]]]].
  - simpl. split_conj; try lia. done.
  - intros st Hg [Hc [Hs Hv]]. pose proof (guard_start _ _ Hg) as Hlt.
    destruct (positive_chunk_size_window text cs 0 (start st) Hcs ltac:(lia))
      as [[He1 He2] Hnext].
    cbn [chunk_step start iteration_count chunks]. rewrite Hnext.
    set (e := chunk_end text cs (start st)) in *.
    assert (visible (concat (if truthy (strip (slice text (start st) e))
                             then chunks st ++ [strip (slice text (start st) e)]
                             else chunks st))
            = visible (take (Z.to_nat (Z.min e (len text))) text)) as Hv'.
    { rewrite (take_slice text (start st) e) by lia.
      rewrite visible_app, <- Hv, <- (visible_strip (slice _ _ _)).
      destruct (strip (slice text (start st) e)) as [|x c]; simpl truthy; cbv iota.
      - by rewrite app_nil_r.
      - by rewrite concat_app, visible_app; simpl; rewrite app_nil_r. }
    rewrite Hv'. destruct (Z.ltb_spec e (len text)).
    + rewrite Z.sub_0_r, Z.min_l by lia. split_conj; try lia. done.
    + rewrite Z.min_r by lia. split_conj; try lia. done.
  - assert (start st = len text) as Hend.
    { unfold chunk_text_run in Hrun. destruct (truthy text) eqn:Ht.
      - apply (chunk_loop_invariant (fun _ => True)) in Hrun as [_ Hg]; [|done|done].
        unfold loop_guard in Hg. apply andb_false_iff in Hg as [Hg|Hg].
        + apply Z.ltb_ge in Hg. lia.
        + apply Z.ltb_ge in Hg. lia.
      - injection Hrun as <-. destruct text; [done|discriminate Ht]. }
    rewrite Hend in Hv. rewrite Hv. split; [|lia].
    f_equal. apply firstn_all2. unfold len. lia.
Qed.

End ChunkerProgress.

Section WhitespaceFreeText.
Import PyStr DocumentParser.

Lemma startswith_elem s sub c : startswith s sub = true -> c ∈ sub -> c ∈ s.
Proof.
  revert s. induction sub as [|x sub IH]; intros [|y s]; simpl; try done.
  - by intros _ ?%elem_of_nil.
  - destruct (decide (x = y)) as [->|]; [|done].
    intros Hs [->|Hc]%elem_of_cons; [by left|]. right. by apply IH.
Qed.

Lemma startswith_whitespace s sub :
  Forall (fun c => isspace c = false) s -> existsb isspace sub = true ->
  startswith s sub = false.
Proof.
  intros Hs [c [Hc Hsp]]%existsb_exists.
  destruct (startswith s sub) eqn:Hst; [|done].
  apply list_elem_of_In in Hc. apply (startswith_elem _ _ _ Hst) in Hc.
  rewrite Forall_forall in Hs. specialize (Hs c Hc). congruence.
Qed.

Lemma last_occurrence_whitespace sub w i :
  Forall (fun c => isspace c = false) w -> existsb isspace sub = true ->
  last_occurrence sub w i None = None.
Proof.
  intros Hw Hsub. revert i. induction Hw as [|c w Hc Hw IH]; intros i.
  - cbn [last_occurrence]. by rewrite startswith_whitespace.
  - cbn [last_occurrence]. rewrite startswith_whitespace; [apply IH| |done].
    by constructor.
Qed.

Lemma rfind_whitespace s sub a b :
  Forall (fun c => isspace c = false) s -> existsb isspace sub = true ->
  rfind s sub a b = -1.
Proof.
  intros Hs Hsub. unfold rfind. destruct (_ <? _); [done|].
  rewrite last_occurrence_whitespace; [done| |done].
  by apply Forall_take, Forall_drop.
Qed.

Lemma chunk_end_whitespace_free text cs s :
  Forall (fun c => isspace c = false) text -> chunk_end text cs s = s + cs.
Proof.
  intros Ht. unfold chunk_end. destruct (_ <? _); [|done].
  unfold delimiters, sentence_end.
  rewrite !(rfind_whitespace text) by (done || (vm_compute; reflexivity)).
  done.
Qed.

Lemma strip_whitespace_free s : Forall (fun c => isspace c = false) s -> strip s = s.
Proof.
  intros Hs.
  assert (forall t, Forall (fun c => isspace c = false) t -> lstrip t = t) as Hl.
  { intros t Ht. destruct Ht as [|c t Hc _]; simpl; [done|]. by rewrite Hc. }
  unfold strip, rstrip. rewrite (Hl s Hs), Hl by (by apply Forall_reverse).
  apply reverse_involutive.
Qed.

Lemma join_overlapping_snoc ov chunks x :
  chunks <> [] ->
  join_overlapping ov (chunks ++ [x])
  = join_overlapping ov chunks ++ drop (Z.to_nat ov) x.
Proof.
  destruct chunks as [|c rest]; [done|]. intros _. simpl.
  rewrite map_app, concat_app. simpl. by rewrite app_nil_r, app_assoc.
Qed.

Lemma drop_slice text s e k :
  0 <= s -> 0 <= k -> s + k <= len text -> s + k <= e ->
  drop (Z.to_nat k) (slice text s e) = slice text (s + k) e.
Proof.
  intros Hs Hk Hl He. unfold slice. pose proof (len_nonneg text).
  rewrite (adjust_inside _ s), (adjust_inside _ (s + k)) by lia.
  set (e' := adjust (len text) e).
  assert (s + k <= e') by (unfold e', adjust; destruct (Z.ltb_spec e 0); lia).
  replace (Z.to_nat (s + k)) with (Z.to_nat s + Z.to_nat k)%nat by lia.
  rewrite <- (drop_drop text (Z.to_nat k) (Z.to_nat s)).
  rewrite (take_drop_commute (drop (Z.to_nat s) text) (Z.to_nat (e' - (s + k))) (Z.to_nat k)).
  do 2 f_equal. lia.
Qed.

Lemma chunk_text_exit text cs ov st :
  chunk_text_run enough_fuel text cs ov = Some st ->
  (text = [] /\ st = initial_state) \/ loop_guard text st = false.
Proof.
  unfold chunk_text_run. destruct text as [|c text'] eqn:Ht; simpl truthy; cbv iota.
  - intros [= <-]. by left.
  - intros Hrun. right.
    by apply (chunk_loop_invariant (fun _ => True)) in Hrun as [_ Hg].
Qed.

End WhitespaceFreeText.

Section WhitespaceFreeWindows.
Import PyStr DocumentParser.

Lemma windows_invariant_step text cs ov st :
  Forall (fun c => isspace c = false) text -> valid_configuration cs ov ->
  loop_guard text st = true ->
  windows_invariant text cs ov st ->
  windows_invariant text cs ov (chunk_step text cs ov st).
Proof.
  intros Ht [Hgt [Hov Hcs]] Hg [Hc [Hch [Hb Hcase]]].
  pose proof (guard_start _ _ Hg) as Hlt. pose proof (len_nonneg text) as Hn.
  destruct Hcase as [[Hs Hj]|[Hs _]]; [|lia].
  set (c := iteration_count st) in *. set (step := cs - ov) in *.
  assert (0 <= start st) as Hs0 by (rewrite Hs; nia).
  set (x := slice text (start st) (start st + cs)).
  assert (Forall (fun c => isspace c = false) x) as Hx
    by (unfold x, slice; by apply Forall_take, Forall_drop).
  assert (x <> []) as Hne.
  { intros Hnil. assert (len x = 0) as Hl by (by rewrite Hnil).
    unfold x in Hl. rewrite len_slice, (adjust_inside _ (start st)) in Hl by lia.
    unfold adjust in Hl. destruct (Z.ltb_spec (start st + cs) 0); lia. }
  assert (join_overlapping ov (chunks st ++ [x])
          = take (Z.to_nat (Z.min (start st + cs) (len text))) text) as Hjoin.
  { destruct (decide (c = 0)) as [Hc0|Hc0].
    - assert (start st = 0) as Hz by (rewrite Hs, Hc0; lia).
      rewrite Hch, Hc0. simpl. rewrite app_nil_r. unfold x. rewrite Hz.
      by rewrite (take_slice text 0 (0 + cs)) by lia.
    - destruct (Hj ltac:(lia)) as [Hend Hjj].
      assert (chunks st <> []) as Hne' by (rewrite Hch, seqZ_cons by lia; done).
      rewrite (join_overlapping_snoc ov (chunks st) x Hne').
      rewrite Hjj. unfold x. rewrite drop_slice by lia.
      by rewrite (take_slice text (start st + ov) (start st + cs)) by lia. }
  unfold windows_invariant. cbn [chunk_step start iteration_count chunks].
  rewrite chunk_end_whitespace_free by done. fold x.
  rewrite strip_whitespace_free by done.
  assert (truthy x = true) as -> by (by destruct x).
  fold c. split_conj.
  - lia.
  - rewrite Hch, seqZ_app, map_app by lia.
    rewrite (seqZ_cons (0 + c) 1), (seqZ_nil _ (Z.pred 1)) by lia.
    simpl map. rewrite Z.add_0_l. unfold x. by rewrite Hs.
  - right. replace (c + 1 - 1) with c by lia. fold step. lia.
  - unfold next_start. destruct (Z.leb_spec (start st + cs) (start st)); [lia|].
    destruct (Z.ltb_spec (start st + cs) (len text)).
    + left. split; [rewrite Hs; unfold step; lia|]. intros _.
      replace (start st + cs - ov + ov) with (start st + cs) by lia.
      split; [done|]. rewrite Hjoin. f_equal. lia.
    + right. split_conj; [done|lia|]. rewrite Hjoin, Z.min_r by lia.
      apply firstn_all2. unfold len. lia.
Qed.

(** X15. On a text without whitespace and with a valid configuration the
    chunker does what the configuration says: chunk [i] is the window
    [text[i*(chunk_size-overlap) : i*(chunk_size-overlap)+chunk_size]], the
    loop takes at most [ceil(len(text) / (chunk_size - overlap))]
    iterations, and when that number is within the cap of 10000 the chunks
    put end to end, each later one without its first [overlap] characters,
    give back the text exactly. *)
Theorem whitespace_free_text_windows text cs ov :
  Forall (fun c => isspace c = false) text -> valid_configuration cs ov ->
  exists n,
    chunk_text_iterations text cs ov = n
    /\ 0 <= n <= step_bound (len text) cs ov 0
    /\ chunk_text text cs ov
       = map (fun i => slice text (i * (cs - ov)) (i * (cs - ov) + cs)) (seqZ 0 n)
    /\ (step_bound (len text) cs ov 0 <= max_iterations ->
        join_overlapping ov (chunk_text text cs ov) = text).
Proof.
  intros Ht Hv. pose proof Hv as [Hgt [Hov Hcs]]. pose proof (len_nonneg text) as Hn.
  destruct (chunk_text_rule (windows_invariant text cs ov) text cs ov)
    as [st [Hrun [Hchunks [Hiter [Hc [Hch [Hb Hcase]]]]]]].
  - unfold windows_invariant. simpl. split_conj; [lia|done|by left|].
    left. split; [lia|]. lia.
  - intros st Hg. by apply windows_invariant_step.
  - exists (iteration_count st). set (c := iteration_count st) in *.
    set (step := cs - ov) in *.
    assert (step_bound (len text) cs ov 0 = (len text + step - 1) / step) as Hsb.
    { unfold step_bound. fold step. rewrite Z.max_r by lia. lia. }
    assert (c <= (len text + step - 1) / step) as Hle.
    { apply Z.div_le_lower_bound; [lia|]. destruct Hb; nia. }
    split_conj; [done|lia|lia|by rewrite Hchunks|].
    rewrite Hsb. intros Hcap. rewrite Hchunks.
    destruct Hcase as [[Hs Hj]|[_ [_ Hj]]]; [|done].
    destruct (chunk_text_exit text cs ov st Hrun) as [[-> ->]|Hg]; [done|].
    unfold loop_guard in Hg. fold c in Hg.
    apply andb_false_iff in Hg as [Hg|Hg]; apply Z.ltb_ge in Hg.
    + destruct (decide (c = 0)) as [Hc0|Hc0]; [|destruct (Hj ltac:(lia)); lia].
      assert (text = []) as -> by (apply length_zero_iff_nil; unfold len in *; nia).
      by rewrite Hch, Hc0.
    + destruct (decide (c = 0)) as [Hc0|Hc0]; [unfold max_iterations in Hg; lia|].
      destruct (Hj ltac:(lia)) as [Hend _].
      assert (c + 1 <= (len text + step - 1) / step)
        by (apply Z.div_le_lower_bound; [lia|nia]).
      lia.
Qed.

End WhitespaceFreeWindows.

Section StoredRecords.
Context `{Backends}.
Import PyStr DocumentParser.

Lemma chunk_text_trimmed txt cs ov :
  Forall (fun c => c <> [] /\ trimmed c) (chunk_text txt cs ov).
Proof.
  destruct (chunk_text_rule
              (fun st => Forall (fun c => c <> [] /\ trimmed c) (chunks st)) txt cs ov)
    as [st [_ [-> [_ HP]]]]; [by constructor| |done].
  intros st _ HP. simpl.
  destruct (strip (slice txt (start st) _)) as [|x c] eqn:Hc; [done|]. simpl.
  apply Forall_app. split; [done|]. constructor; [|done].
  split; [done|]. rewrite <- Hc. apply strip_trimmed.
Qed.

Lemma perform_configuration op (w : world) :
  chunk_size (perform op w).2.1 = chunk_size w.1
  /\ chunk_overlap (perform op w).2.1 = chunk_overlap w.1.
Proof.
  destruct op as [txt src|]; simpl; [|done].
  destruct (add_document_cases txt src w) as [[e ->]|[vs [_ ->]]]; done.
Qed.

Lemma perform_stored_texts op (P : str -> Prop) (w : world) :
  (forall txt, Forall P (chunk_text txt (chunk_size w.1) (chunk_overlap w.1))) ->
  Forall (fun d => P (text d)) (documents w.1) ->
  Forall (fun d => P (text d)) (documents (perform op w).2.1).
Proof.
  intros HP Hd. destruct op as [txt src|]; simpl; [|constructor].
  destruct (add_document_cases txt src w) as [[e ->]|[vs [_ ->]]]; [done|].
  cbn [fst snd documents]. apply Forall_app. split; [done|].
  destruct (chunk_records_fields src 0
              (chunk_text txt (chunk_size w.1) (chunk_overlap w.1))) as [Ht _].
  specialize (HP txt). rewrite <- Ht in HP. by apply Forall_map.
Qed.

(** X16. Whatever texts are ingested, no stored record is empty or
    starts or ends with whitespace, and with a chunk size that is not
    negative none is longer than the chunk size: this holds after any
    sequence of [add_document] and [clear] calls on a fresh object. *)
Theorem stored_texts_are_trimmed_chunks (cs ov dim : Z) (provider : str)
    (client : option str) (dk : disk) (ops : list operation) :
  Forall (fun d => text d <> [] /\ trimmed (text d) /\ (0 <= cs -> len (text d) <= cs))
         (documents (execute ops (init cs ov dim provider client, dk)).1).
Proof.
  set (w0 := (init cs ov dim provider client, dk)).
  assert (forall w : world,
             chunk_size w.1 = cs -> chunk_overlap w.1 = ov ->
             Forall (fun d => text d <> [] /\ trimmed (text d)
                              /\ (0 <= cs -> len (text d) <= cs)) (documents w.1) ->
             Forall (fun d => text d <> [] /\ trimmed (text d)
                              /\ (0 <= cs -> len (text d) <= cs))
                    (documents (execute ops w).1)) as Hgen.
  { induction ops as [|op ops IH]; intros w Hcs Hov Hd; simpl; [done|].
    destruct (perform_configuration op w) as [Hc1 Hc2].
    apply IH; [congruence|congruence|].
    apply (perform_stored_texts op
             (fun t => t <> [] /\ trimmed t /\ (0 <= cs -> len t <= cs))); [|done].
    intros txt. rewrite Hcs, Hov.
    pose proof (chunk_text_trimmed txt cs ov) as Ht.
    rewrite Forall_forall in *. intros c Hin. destruct (Ht c Hin).
    split_conj; [done|done|]. intros Hpos.
    pose proof (chunk_text_bounded txt cs ov Hpos) as Hb.
    rewrite Forall_forall in Hb. by apply Hb. }
  apply Hgen; [done|done|constructor].
Qed.

End StoredRecords.

(** * Properties of the document parser *)

Section ParserFacts.
Context `{Readers}.
Import PyStr.

Lemma truthy_nonempty (s : str) : truthy s = true -> s <> [].
Proof. by destruct s. Qed.

Lemma pdf_text_or_error_result text_content :
  match pdf_text_or_error text_content with
  | Returned t => t <> [] /\ trimmed t
  | Raised e => e = Exn "ValueError"
  end.
Proof.
  unfold pdf_text_or_error. destruct (truthy (strip text_content)) eqn:Ht; [|done].
  split; [by apply truthy_nonempty|apply strip_trimmed].
Qed.

Lemma parse_pdf_result files file_path :
  match _parse_pdf files file_path with
  | Returned t => t <> [] /\ trimmed t
  | Raised e => e = Exn "ValueError"
  end.
Proof.
  unfold _parse_pdf.
  assert (match match _parse_pdf_pypdf2 files file_path with
                | Returned text_content => pdf_text_or_error text_content
                | Raised e => Raised e
                end with
          | Returned t => t <> [] /\ trimmed t
          | Raised e => e = Exn "ValueError"
          end) as Hh.
  { unfold _parse_pdf_pypdf2. destruct (on_file files file_path pypdf2_pages); [|done].
    apply pdf_text_or_error_result. }
  destruct (on_file files file_path pdfplumber_pages) as [pages|e]; [|done].
  destruct (truthy (strip (pages_text 1 pages))) eqn:Ht.
  - split; [by apply truthy_nonempty|apply strip_trimmed].
  - destruct (_parse_pdf_pypdf2 files file_path) as [t'|e'] eqn:Hp; [|done].
    apply pdf_text_or_error_result.
Qed.

(** X17. [_parse_pdf] returns only text that is not empty and has no
    whitespace at either end, and the only exception it lets out is
    [ValueError], whatever the two PDF libraries return or raise; when
    pdfplumber gives a page with visible text, the result is pdfplumber's
    text and PyPDF2 plays no part. *)
Theorem parse_pdf_text_or_value_error files file_path :
  match _parse_pdf files file_path with
  | Returned t => t <> [] /\ trimmed t
  | Raised e => e = Exn "ValueError"
  end
  /\ forall pages,
       on_file files file_path pdfplumber_pages = Returned pages ->
       strip (pages_text 1 pages) <> [] ->
       _parse_pdf files file_path = Returned (strip (pages_text 1 pages)).
Proof.
  split; [apply parse_pdf_result|].
  intros pages Hp Hne. unfold _parse_pdf. rewrite Hp.
  destruct (strip (pages_text 1 pages)); [done|done].
Qed.

Lemma parse_txt_result files file_path :
  match _parse_txt files file_path with
  | Returned t => trimmed t
  | Raised e =>
      e = Exn "ValueError"
      \/ (exists e0, on_file files file_path (read_text (py "utf-8")) = Raised e0
                     /\ is_instance e0 "UnicodeDecodeError" = true)
         /\ on_file files file_path (read_text (py "latin-1")) = Raised e
  end.
Proof.
  unfold _parse_txt.
  destruct (on_file files file_path (read_text (py "utf-8"))) as [content|e0];
    [apply strip_trimmed|].
  destruct (is_instance e0 "UnicodeDecodeError") eqn:Hi; [|by left].
  destruct (on_file files file_path (read_text (py "latin-1"))) as [content|e'];
    [apply strip_trimmed|].
  right. split; [by exists e0|done].
Qed.

(** X18. [_parse_txt] on a regular file returns the stripped content when
    the UTF-8 read returns; it raises [ValueError] when that read raises
    anything but a decoding error; after a decoding error the file is read
    as latin-1, whose content is returned stripped and whose failure comes
    out as it is, not wrapped in [ValueError]. A path that names nothing
    and a directory raise [ValueError]. Whatever is returned has no
    whitespace at either end. *)
Theorem parse_txt_result_and_errors files file_path :
  (forall content,
     files !! file_path = Some (RegularFile content) ->
     _parse_txt files file_path
     = match read_text (py "utf-8") content with
       | Returned t => Returned (strip t)
       | Raised e =>
           if is_instance e "UnicodeDecodeError" then
             match read_text (py "latin-1") content with
             | Returned t => Returned (strip t)
             | Raised e' => Raised e'
             end
           else Raised (Exn "ValueError")
       end)
  /\ (forall content e,
        files !! file_path = Some (RegularFile content) ->
        read_text (py "utf-8") content = Raised e ->
        is_instance e "UnicodeDecodeError" = false ->
        _parse_txt files file_path = Raised (Exn "ValueError"))
  /\ (forall content e e',
        files !! file_path = Some (RegularFile content) ->
        read_text (py "utf-8") content = Raised e ->
        is_instance e "UnicodeDecodeError" = true ->
        read_text (py "latin-1") content = Raised e' ->
        _parse_txt files file_path = Raised e')
  /\ (files !! file_path = None \/ files !! file_path = Some DirectoryNode ->
      _parse_txt files file_path = Raised (Exn "ValueError"))
  /\ (forall t, _parse_txt files file_path = Returned t -> trimmed t).
Proof.
  unfold _parse_txt, on_file. split_conj.
  - by intros content ->.
  - intros content e -> -> Hi. by rewrite Hi.
  - intros content e e' -> -> Hi ->. by rewrite Hi.
  - by intros [->| ->].
  - intros t Ht. pose proof (parse_txt_result files file_path) as Hr.
    unfold _parse_txt, on_file in Hr. by rewrite Ht in Hr.
Qed.

Lemma parse_pdf_directory files file_path :
  files !! file_path = Some DirectoryNode ->
  _parse_pdf files file_path = Raised (Exn "ValueError").
Proof. intros Hd. unfold _parse_pdf, _parse_pdf_pypdf2, on_file. by rewrite Hd. Qed.

Lemma parse_txt_directory files file_path :
  files !! file_path = Some DirectoryNode ->
  _parse_txt files file_path = Raised (Exn "ValueError").
Proof. intros Hd. unfold _parse_txt, on_file. by rewrite Hd. Qed.

(** X19. [parse_document] checks in this order: a path that names
    nothing raises [FileNotFoundError] whatever its suffix; a path that
    exists, file or directory, whose suffix in lower case is neither
    [.pdf] nor [.txt] raises [ValueError] and is not read; otherwise the
    PDF or the text parser decides. A directory passes the existence
    check and ends in [ValueError], whatever its suffix. Whatever is
    returned has no whitespace at either end, and for a PDF is not
    empty. *)
Theorem parse_document_checks_and_result files file_path :
  (files !! file_path = None ->
   parse_document files file_path = Raised (Exn "FileNotFoundError"))
  /\ (is_Some (files !! file_path) ->
      str_lower (path_suffix file_path) <> py ".pdf" ->
      str_lower (path_suffix file_path) <> py ".txt" ->
      parse_document files file_path = Raised (Exn "ValueError"))
  /\ (is_Some (files !! file_path) ->
      str_lower (path_suffix file_path) = py ".pdf" ->
      parse_document files file_path = _parse_pdf files file_path)
  /\ (is_Some (files !! file_path) ->
      str_lower (path_suffix file_path) = py ".txt" ->
      parse_document files file_path = _parse_txt files file_path)
  /\ (files !! file_path = Some DirectoryNode ->
      parse_document files file_path = Raised (Exn "ValueError"))
  /\ (forall t, parse_document files file_path = Returned t ->
      trimmed t /\ (str_lower (path_suffix file_path) = py ".pdf" -> t <> [])).
Proof.
  unfold parse_document, supported_formats.
  split_conj.
  - by intros ->.
  - intros [c ->] Hp Ht. rewrite bool_decide_eq_false_2; [done|].
    intros Hin. apply elem_of_cons in Hin as [?|Hin]; [done|].
    apply elem_of_cons in Hin as [?|Hin]; [done|]. by apply elem_of_nil in Hin.
  - intros [c ->] ->. reflexivity.
  - intros [c ->] ->. reflexivity.
  - intros Hd. rewrite Hd.
    destruct (negb _); [done|].
    destruct (bool_decide (_ = py ".pdf")); [by apply parse_pdf_directory|].
    destruct (bool_decide (_ = py ".txt")); [by apply parse_txt_directory|done].
  - intros t. destruct (files !! file_path); [|done].
    set (ext := str_lower (path_suffix file_path)).
    destruct (bool_decide (ext ∈ _)); cbn [negb]; [|done].
    destruct (bool_decide (ext = py ".pdf")) eqn:Hpdf.
    + pose proof (parse_pdf_result files file_path) as Hr. intros Ht. rewrite Ht in Hr.
      split; [apply Hr|intros _; apply Hr].
    + apply bool_decide_eq_false in Hpdf.
      destruct (bool_decide (ext = py ".txt")); [|done].
      pose proof (parse_txt_result files file_path) as Hr. intros Ht. rewrite Ht in Hr.
      by split.
Qed.

End ParserFacts.

(** * Properties of the web application *)

Section ApplicationFacts.
Context `{Backends} `{Readers} `{Deployment}.
Import PyStr.

Lemma get_rag_system_cases (a : app) :
  (exists e, get_rag_system a = (Raised e, a) /\ rag_system a = None)
  \/ (exists rag a',
        get_rag_system a = (Returned rag, a')
        /\ rag_system a' = Some rag
        /\ snapshot_disk a' = snapshot_disk a /\ files a' = files a
        /\ stored_records a' = stored_records a
        /\ stored_vectors a' = stored_vectors a).
Proof.
  unfold get_rag_system, stored_records, stored_vectors.
  destruct a as [[rag|] dk fs]; cbn [rag_system snapshot_disk files].
  - right. by exists rag, (App (Some rag) dk fs).
  - destruct embedding_dimension as [dim|e].
    + right. by eexists _, _.
    + left. by exists e.
Qed.

Lemma on_rag_reading {A : Type} (method : M A) rag (a : app) :
  rag_system a = Some rag ->
  (method (rag, snapshot_disk a)).2 = (rag, snapshot_disk a) ->
  (on_rag method rag a).2 = a.
Proof.
  intros Hr Hm. unfold on_rag. cbn [snd]. rewrite Hm. cbn [fst snd].
  destruct a as [r dk fs]. cbn in *. by rewrite Hr.
Qed.

Lemma get_rag_system_in_sync (a : app) rag a' :
  app_in_sync a -> get_rag_system a = (Returned rag, a') ->
  in_sync rag /\ app_in_sync a'.
Proof.
  intros Ha. unfold get_rag_system.
  destruct a as [[r|] dk fs]; cbn [rag_system snapshot_disk files].
  - intros [= <- <-]. split; [by apply Ha|done].
  - destruct embedding_dimension as [dim|e]; [|done].
    intros [= <- <-]. split; [done|]. by intros rag [= <-].
Qed.

Lemma on_rag_in_sync {A : Type} (method : M A) rag (a : app) :
  (forall w : world, in_sync w.1 -> in_sync (method w).2.1) ->
  in_sync rag -> app_in_sync (on_rag method rag a).2.
Proof.
  intros Hm Hr rag' [= <-]. by apply (Hm (rag, snapshot_disk a)).
Qed.

Lemma with_rag_in_sync {A : Type} (method : M A) (a : app) :
  (forall w : world, in_sync w.1 -> in_sync (method w).2.1) ->
  app_in_sync a -> app_in_sync (with_rag method a).2.
Proof.
  intros Hm Ha. unfold with_rag.
  destruct (get_rag_system_cases a) as [[e [-> _]]|[rag [a' [Hg _]]]]; [done|].
  rewrite Hg. destruct (get_rag_system_in_sync a rag a' Ha Hg) as [Hr _].
  by apply on_rag_in_sync.
Qed.

Lemma reading_in_sync {A : Type} (method : M A) :
  (forall w : world, (method w).2 = w) ->
  forall w : world, in_sync w.1 -> in_sync (method w).2.1.
Proof. intros Hm w Hw. by rewrite Hm. Qed.

Lemma query_state q top_k (w : world) : (query q top_k w).2 = w.
Proof.
  rewrite query_unfold. destruct ((retrieve q top_k w).1) as [docs|e]; [|done].
  by destruct ((synthesize_answer q docs w).1).
Qed.

Lemma files_update_in_sync (a : app) fs :
  app_in_sync a -> app_in_sync (App (rag_system a) (snapshot_disk a) fs).
Proof. done. Qed.

Lemma upload_one_in_sync f (a : app) :
  app_in_sync a -> app_in_sync (upload_one f a).2.
Proof.
  intros Ha. unfold upload_one. destruct (negb _); [done|].
  destruct (open_wb _ _); [|done].
  set (a1 := App _ _ _). assert (app_in_sync a1) as Ha1 by done.
  destruct (parse_document _ _) as [txt|e]; [|done].
  pose proof (with_rag_in_sync (add_document txt (filename f)) a1
                (add_document_in_sync txt (filename f)) Ha1) as Hw.
  by destruct (with_rag _ a1) as [[u|e] a2].
Qed.

Lemma upload_loop_in_sync fs uploaded (a : app) :
  app_in_sync a -> app_in_sync (upload_loop fs uploaded a).2.
Proof.
  revert uploaded a. induction fs as [|f fs IH]; intros uploaded a Ha; simpl; [done|].
  pose proof (upload_one_in_sync f a Ha) as Hone.
  destruct (upload_one f a) as [[entry|] a']; [|done]. by apply IH.
Qed.

Lemma serve_in_sync r (a : app) : app_in_sync a -> app_in_sync (serve r a).
Proof.
  intros Ha. destruct r as [fs|q top_k| | |]; cbn [serve]; [| | | |done].
  - unfold upload_documents.
    pose proof (upload_loop_in_sync fs [] a Ha) as Hl.
    destruct (upload_loop fs [] a) as [[uploaded|] a']; [|done].
    pose proof (with_rag_in_sync get_document_count a'
                  (reading_in_sync get_document_count (fun w => eq_refl)) Hl) as Hw.
    by destruct (with_rag get_document_count a') as [[n|e] a''].
  - unfold query_knowledge_base.
    destruct (get_rag_system_cases a) as [[e [Hg _]]|[rag [a' [Hg _]]]];
      rewrite Hg; [done|].
    destruct (get_rag_system_in_sync a rag a' Ha Hg) as [Hr Ha'].
    pose proof (on_rag_in_sync get_document_count rag a'
                  (reading_in_sync get_document_count (fun w => eq_refl)) Hr) as Hone.
    destruct (on_rag get_document_count rag a') as [[n|e] a''] eqn:Hcnte; [|done].
    cbn [snd] in Hone. destruct (n =? 0); [done|].
    pose proof (on_rag_in_sync (query q top_k) rag a''
                  (reading_in_sync _ (query_state q top_k)) Hr) as Hqry.
    by destruct (on_rag (query q top_k) rag a'') as [[res|e] a3].
  - unfold list_documents_endpoint.
    pose proof (with_rag_in_sync list_documents a
                  (reading_in_sync list_documents (fun w => eq_refl)) Ha) as Hw.
    by destruct (with_rag list_documents a) as [[srcs|e] a'].
  - unfold clear_knowledge_base.
    pose proof (with_rag_in_sync clear a (fun w _ => clear_in_sync w) Ha) as Hw.
    destruct (with_rag clear a) as [[u|e] a']; [|done].
    destruct listdir_upload_dir; [|done].
    by destruct (unlink_loop _ _) as [[u'|e] fs'].
Qed.

(** X20. The invariant holds for the whole application: in a process
    that starts without the object, after any sequence of upload, query,
    list, clear and health requests, parsed or failing, the object holds
    as many records as vectors. *)
Theorem application_keeps_index_and_store_in_sync (dk : disk) (fs : gmap str node)
    (rs : list request) (rag : RAGSystem) :
  rag_system (serve_all rs (App None dk fs)) = Some rag ->
  Z.of_nat (length (documents rag)) = faiss.ntotal (index rag).
Proof.
  assert (forall a, app_in_sync a -> app_in_sync (serve_all rs a)) as Hgen.
  { induction rs as [|r rs IH]; intros a Ha; simpl; [done|]. by apply IH, serve_in_sync. }
  intros Hr. symmetry. by apply (Hgen (App None dk fs)).
Qed.

End ApplicationFacts.

Section UploadFacts.
Context `{Backends} `{Readers} `{Deployment}.
Import PyStr.

Lemma on_rag_get_document_count rag (a : app) :
  rag_system a = Some rag ->
  on_rag get_document_count rag a = (Returned (Z.of_nat (length (documents rag))), a).
Proof.
  intros Hr. unfold on_rag, get_document_count, bind, self, ret. cbn [fst snd].
  destruct a as [r dk fs]. cbn in *. by rewrite Hr.
Qed.

Lemma upload_one_rejected f (a : app) :
  accepted_name f = false -> upload_one f a = (None, a).
Proof. intros Hf. unfold upload_one. fold (accepted_name f). by rewrite Hf. Qed.

Lemma with_rag_add_document_cases txt src (a : app) :
  (exists e a', with_rag (add_document txt src) a = (Raised e, a')
                /\ stored_records a' = stored_records a
                /\ stored_vectors a' = stored_vectors a
                /\ files a' = files a)
  \/ (exists a' new vs,
        with_rag (add_document txt src) a = (Returned tt, a')
        /\ stored_records a' = stored_records a ++ new
        /\ stored_vectors a' = stored_vectors a ++ vs
        /\ length vs = length new
        /\ Forall (fun d => source d = src) new
        /\ files a' = files a).
Proof.
  unfold with_rag.
  destruct (get_rag_system_cases a)
    as [[e [-> _]]|[rag [a' [-> [Hr [Hd [Hf [Hsr Hsv]]]]]]]].
  { left. by exists e, a. }
  unfold on_rag.
  destruct (add_document_cases txt src (rag, snapshot_disk a')) as [[e He]|[vs [Hl He]]];
    rewrite He; cbn [fst snd].
  - left. eexists _, _. split; [reflexivity|].
    unfold stored_records, stored_vectors in *. rewrite Hr in *. cbn in *. by rewrite Hsr, Hsv.
  - right. eexists _, _, vs. split; [reflexivity|].
    unfold stored_records, stored_vectors in *. rewrite Hr in *. cbn in *.
    rewrite <- Hsr, <- Hsv. split_conj; try done.
    + by rewrite chunk_records_length.
    + by destruct (chunk_records_fields src 0
                     (DocumentParser.chunk_text txt (chunk_size rag) (chunk_overlap rag)))
        as [_ [? _]].
Qed.

(** What one iteration of the upload loop leaves behind. *)
Lemma upload_one_cases f (a : app) :
  (upload_one f a = (None, a))
  \/ (accepted_name f = true
      /\ exists a',
           files a' = <[upload_path (filename f) := RegularFile (file f)]> (files a)
           /\ ((upload_one f a = (Some (UploadError (filename f)), a')
                /\ stored_records a' = stored_records a
                /\ stored_vectors a' = stored_vectors a)
               \/ (exists txt new vs,
                     upload_one f a
                     = (Some (UploadSuccess (filename f) (split_length txt (nl ++ nl))), a')
                     /\ parse_document (files a') (upload_path (filename f)) = Returned txt
                     /\ stored_records a' = stored_records a ++ new
                     /\ stored_vectors a' = stored_vectors a ++ vs
                     /\ length vs = length new
                     /\ Forall (fun d => source d = filename f) new))).
Proof.
  unfold upload_one. fold (accepted_name f).
  destruct (accepted_name f) eqn:Hacc; cbn [negb]; [|by left].
  destruct (open_wb _ _); [|by left]. right. split; [done|].
  set (a1 := App _ _ _).
  destruct (parse_document (files a1) _) as [txt|e] eqn:Hp.
  - destruct (with_rag_add_document_cases txt (filename f) a1)
      as [[e [a' [Hw [Hsr [Hsv Hf]]]]]|[a' [new [vs [Hw [Hsr [Hsv [Hl [Hs Hf]]]]]]]]];
      rewrite Hw; exists a'; (split; [by rewrite Hf|]).
    + left. by split_conj.
    + right. exists txt, new, vs. rewrite Hf. by split_conj.
  - exists a1. split; [done|]. left. by split_conj.
Qed.

Lemma upload_loop_app before rest uploaded (a : app) :
  upload_loop (before ++ rest) uploaded a
  = match upload_loop before uploaded a with
    | (None, a') => (None, a')
    | (Some u, a') => upload_loop rest u a'
    end.
Proof.
  revert uploaded a. induction before as [|f before IH]; intros uploaded a; simpl; [done|].
  destruct (upload_one f a) as [[entry|] a']; [apply IH|done].
Qed.

Lemma upload_loop_entries fs uploaded (a : app) u a' :
  upload_loop fs uploaded a = (Some u, a') ->
  map entry_filename u = map entry_filename uploaded ++ map filename fs
  /\ Forall (fun f => accepted_name f = true) fs.
Proof.
  revert uploaded a. induction fs as [|f fs IH]; intros uploaded a; simpl.
  - intros [= <- <-]. by rewrite app_nil_r.
  - destruct (upload_one_cases f a) as [->|[Hacc [a1 [_ [[Hu _]|[txt [new [vs [Hu _]]]]]]]]];
      [done| |]; rewrite Hu; intros Hl; destruct (IH _ _ Hl) as [Hm Hall];
      (split; [|by constructor]);
      rewrite Hm, map_app; simpl; by rewrite <- app_assoc.
Qed.

(** X21. [POST /upload] never answers 400: every failure of the handler
    comes out with status 500, the rejection of a file name included. When
    a name ends neither in [.pdf] nor in [.txt] the answer is 500, the
    files before it stay saved and ingested, and the files after it are
    not looked at. *)
Theorem upload_failures_answer_500 fs (a : app) :
  (forall status, (upload_documents fs a).1 = HTTPException status -> status = 500)
  /\ (forall before bad after,
        fs = before ++ bad :: after -> accepted_name bad = false ->
        (upload_documents fs a).1 = HTTPException 500
        /\ (upload_documents fs a).2 = (upload_loop before [] a).2).
Proof.
  split.
  - intros status. unfold upload_documents.
    destruct (upload_loop fs [] a) as [[uploaded|] a']; [|by intros [= <-]].
    destruct (with_rag get_document_count a') as [[n|e] a'']; [done|by intros [= <-]].
  - intros before bad after -> Hbad. unfold upload_documents.
    rewrite upload_loop_app.
    destruct (upload_loop before [] a) as [[u|] a']; [|done].
    simpl. by rewrite upload_one_rejected.
Qed.

Lemma upload_response_entries fs (a a' : app) body :
  upload_documents fs a = (Response body, a') ->
  map entry_filename (uploaded_files body) = map filename fs
  /\ processed body = Z.of_nat (length fs)
  /\ total_documents body = Z.of_nat (length (stored_records a'))
  /\ Forall (fun f => accepted_name f = true) fs.
Proof.
  unfold upload_documents.
  destruct (upload_loop fs [] a) as [[uploaded|] a1] eqn:Hl; [|done].
  destruct (upload_loop_entries fs [] a uploaded a1 Hl) as [Hm Hall].
  unfold with_rag.
  destruct (get_rag_system_cases a1) as [[e [-> _]]|[rag [a2 [-> [Hr _]]]]]; [done|].
  unfold on_rag, get_document_count, bind, self, ret. cbn [fst snd].
  intros [= <- <-]. cbn [uploaded_files processed total_documents].
  by split_conj.
Qed.

(** The object of the process exists or can be constructed. *)
Lemma get_rag_system_returns (a : app) :
  is_Some (rag_system a) \/ (exists dim, embedding_dimension = Returned dim) ->
  exists rag a', get_rag_system a = (Returned rag, a') /\ rag_system a' = Some rag
                 /\ files a' = files a.
Proof.
  intros Hobj. unfold get_rag_system. destruct a as [[rag|] dk fs]; cbn.
  - by eexists _, _.
  - destruct Hobj as [[rag Hr]|[dim ->]]; [done|]. by eexists _, _.
Qed.

Lemma with_rag_keeps_object {A : Type} (method : M A) (a : app) :
  is_Some (rag_system a) -> is_Some (rag_system (with_rag method a).2).
Proof.
  intros [rag Hr]. unfold with_rag, get_rag_system. rewrite Hr. by eexists.
Qed.

(** An iteration of the upload loop on an accepted name whose path can
    be written always appends an entry, whatever parsing and ingestion
    do. *)
Lemma upload_one_appends f (a : app) :
  accepted_name f = true ->
  files a !! upload_path (filename f) <> Some DirectoryNode ->
  open_for_writing (upload_path (filename f)) = Returned tt ->
  exists entry a',
    upload_one f a = (Some entry, a')
    /\ entry_filename entry = filename f
    /\ files a' = <[upload_path (filename f) := RegularFile (file f)]> (files a)
    /\ (is_Some (rag_system a) -> is_Some (rag_system a')).
Proof.
  intros Hacc Hdir Hopen. unfold upload_one. fold (accepted_name f). rewrite Hacc. cbn [negb].
  assert (open_wb (files a) (upload_path (filename f)) = Returned tt) as ->.
  { unfold open_wb. destruct (files a !! _) as [[c|]|]; done. }
  set (a1 := App _ _ _).
  destruct (parse_document (files a1) _) as [txt|e].
  - pose proof (with_rag_keeps_object (add_document txt (filename f)) a1) as Hk.
    destruct (with_rag_add_document_cases txt (filename f) a1)
      as [[e [a' [Hw [_ [_ Hf]]]]]|[a' [new [vs [Hw [_ [_ [_ [_ Hf]]]]]]]]];
      rewrite Hw in *; eexists _, a'; by split_conj.
  - eexists _, a1. by split_conj.
Qed.

Lemma upload_loop_completes fs uploaded (a : app) :
  Forall (fun f => accepted_name f = true) fs ->
  Forall (fun f => files a !! upload_path (filename f) <> Some DirectoryNode
                   /\ open_for_writing (upload_path (filename f)) = Returned tt) fs ->
  exists u a',
    upload_loop fs uploaded a = (Some u, a')
    /\ files a'
       = foldl (fun m f => <[upload_path (filename f) := RegularFile (file f)]> m) (files a) fs
    /\ (is_Some (rag_system a) -> is_Some (rag_system a')).
Proof.
  revert uploaded a. induction fs as [|f fs IH]; intros uploaded a Hacc Hopen; simpl.
  - by eexists _, _.
  - apply Forall_cons in Hacc as [Hf Hacc]. apply Forall_cons in Hopen as [[Hd Ho] Hopen].
    destruct (upload_one_appends f a Hf Hd Ho) as [entry [a1 [-> [_ [Hfs Hk]]]]].
    destruct (IH (uploaded ++ [entry]) a1 Hacc) as [u [a' [-> [Hfs' Hk']]]].
    { eapply Forall_impl; [exact Hopen|]. intros g [Hg ?]. split; [|done].
      rewrite Hfs. destruct (decide (upload_path (filename f) = upload_path (filename g)))
        as [->|Hne]; [by rewrite lookup_insert_eq|by rewrite lookup_insert_ne]. }
    eexists _, _. split; [done|]. rewrite Hfs', Hfs. split; [done|]. intros Hs. by apply Hk', Hk.
Qed.

(** X22. One failing document does not stop the batch. When every name
    ends in [.pdf] or [.txt], every upload path can be written and the
    object exists or can be constructed, [POST /upload] answers, whatever
    parsing, embedding and indexing do with each file: its list has one
    entry per uploaded file, in upload order and under the file's name,
    every file has been saved, and the total reported is the number of
    records stored afterwards. *)
Theorem upload_answers_despite_failing_documents fs (a : app) :
  Forall (fun f => accepted_name f = true) fs ->
  Forall (fun f => files a !! upload_path (filename f) <> Some DirectoryNode
                   /\ open_for_writing (upload_path (filename f)) = Returned tt) fs ->
  is_Some (rag_system a) \/ (exists dim, embedding_dimension = Returned dim) ->
  exists body a',
    upload_documents fs a = (Response body, a')
    /\ map entry_filename (uploaded_files body) = map filename fs
    /\ processed body = Z.of_nat (length fs)
    /\ total_documents body = Z.of_nat (length (stored_records a'))
    /\ files a'
       = foldl (fun m f => <[upload_path (filename f) := RegularFile (file f)]> m) (files a) fs.
Proof.
  intros Hacc Hopen Hobj.
  destruct (upload_loop_completes fs [] a Hacc Hopen) as [u [a1 [Hl [Hfs Hk]]]].
  destruct (get_rag_system_returns a1) as [rag [a2 [Hg [Hr Hf]]]].
  { destruct Hobj as [Hs|Hd]; [left; by apply Hk|by right]. }
  assert (exists body a', upload_documents fs a = (Response body, a') /\ files a' = files a1)
    as [body [a' [Hu Hfa]]].
  { unfold upload_documents, with_rag. rewrite Hl, Hg.
    rewrite (on_rag_get_document_count rag a2 Hr). eexists _, _. by split. }
  exists body, a'. split; [exact Hu|].
  destruct (upload_response_entries fs a a' body Hu) as [Hm [Hp [Ht _]]].
  split_conj; [done|done|done|by rewrite Hfa].
Qed.

(** X23. A file that is saved but whose parsing or ingestion raises adds
    no record and no vector; a file reported as a success has added one
    vector per record, every new record carrying the file's name as its
    source. In both cases the file is on disk under the upload path. *)
Theorem upload_of_one_file f (a a' : app) entry :
  upload_one f a = (Some entry, a') ->
  files a' = <[upload_path (filename f) := RegularFile (file f)]> (files a)
  /\ match entry with
     | UploadError name =>
         name = filename f
         /\ stored_records a' = stored_records a
         /\ stored_vectors a' = stored_vectors a
     | UploadSuccess name _ =>
         name = filename f
         /\ exists new vs,
              stored_records a' = stored_records a ++ new
              /\ stored_vectors a' = stored_vectors a ++ vs
              /\ length vs = length new
              /\ Forall (fun d => source d = filename f) new
     end.
Proof.
  destruct (upload_one_cases f a)
    as [->|[_ [a1 [Hf [[-> [Hsr Hsv]]|[txt [new [vs [-> [_ [Hsr [Hsv [Hl Hs]]]]]]]]]]]]].
  - done.
  - intros [= <- <-]. by split_conj.
  - intros [= <- <-]. split; [done|]. split; [done|]. by exists new, vs.
Qed.

End UploadFacts.

Section EndpointFacts.
Context `{Backends} `{Readers} `{Deployment}.
Import PyStr.

Lemma on_rag_query q top_k rag (a : app) :
  rag_system a = Some rag ->
  on_rag (query q top_k) rag a = ((query q top_k (rag, snapshot_disk a)).1, a).
Proof.
  intros Hr. unfold on_rag. rewrite query_state. cbn [fst snd].
  destruct a as [r dk fs]. cbn in *. by rewrite Hr.
Qed.

(** X24. [POST /query] answers 400 exactly when the object is there (or
    can be constructed) and holds no record; in that case neither the
    encoder nor a generation backend is called. Any other failure is a
    500, an answer repeats the question, and in no case does the request
    change the records, the vectors or the files. *)
Theorem query_endpoint_statuses q top_k (a : app) :
  ((query_knowledge_base q top_k a).1 = HTTPException 400
   <-> exists rag a', get_rag_system a = (Returned rag, a') /\ documents rag = [])
  /\ (forall status, (query_knowledge_base q top_k a).1 = HTTPException status ->
        status = 400 \/ status = 500)
  /\ (forall body, (query_knowledge_base q top_k a).1 = Response body ->
        response_query body = q /\ stored_records a <> [])
  /\ stored_records (query_knowledge_base q top_k a).2 = stored_records a
  /\ stored_vectors (query_knowledge_base q top_k a).2 = stored_vectors a
  /\ files (query_knowledge_base q top_k a).2 = files a.
Proof.
  unfold query_knowledge_base.
  destruct (get_rag_system_cases a)
    as [[e [-> _]]|[rag [a' [-> [Hr [Hd [Hf [Hsr Hsv]]]]]]]].
  { split_conj; try done.
    - split; [done|]. by intros [rag [a' [? _]]].
    - intros status [= <-]. by right. }
  rewrite (on_rag_get_document_count rag a' Hr).
  assert (stored_records a = documents rag) as Hdocs
    by (rewrite <- Hsr; unfold stored_records; by rewrite Hr).
  destruct (Z.eqb_spec (Z.of_nat (length (documents rag))) 0) as [Hz|Hnz].
  { assert (documents rag = []) as Hnil by (apply length_zero_iff_nil; lia).
    split_conj; try done.
    - split; [|done]. intros _. by exists rag, a'.
    - intros status [= <-]. by left. }
  rewrite (on_rag_query q top_k rag a' Hr).
  assert (documents rag <> []) as Hne by (intros Hnil; rewrite Hnil in Hnz; simpl in Hnz; lia).
  destruct ((query q top_k (rag, snapshot_disk a')).1) as [result|e]; cbn [fst snd].
  - split_conj; try done.
    + split; [done|]. intros [rag' [a'' [[= <- <-] Hnil]]]. done.
    + intros body [= <-]. split; [done|]. by rewrite Hdocs.
  - split_conj; try done.
    + split; [done|]. intros [rag' [a'' [[= <- <-] Hnil]]]. done.
    + intros status [= <-]. by right.
Qed.

Lemma clear_result (w : world) :
  clear w
  = (Returned tt,
     (RAG (chunk_size w.1) (chunk_overlap w.1) (embedding_dim w.1)
          (faiss.new (embedding_dim w.1)) [] (llm_provider w.1) (hf_client w.1), w.2)).
Proof. done. Qed.

(** The entries the listing of the upload directory yields. *)
Lemma elem_of_iterdir (fs : gmap str node) (p : str) :
  p ∈ iterdir fs <-> in_upload_dir p = true /\ is_Some (fs !! p).
Proof.
  unfold iterdir. rewrite merge_sort_Permutation, list_elem_of_filter.
  apply and_iff_compat_l. rewrite list_elem_of_In, in_map_iff. split.
  - intros [[q x] [<- Hin]]. apply list_elem_of_In, elem_of_map_to_list in Hin. by exists x.
  - intros [x Hx]. exists (p, x). split; [done|]. by apply list_elem_of_In, elem_of_map_to_list.
Qed.

(** What the deletion loop leaves: nothing is added, the paths not
    listed and the directories stay, and the loop returns exactly when
    every listed file could be deleted, none of them being left. *)
Lemma unlink_loop_result (paths : list str) (fs : gmap str node) :
  (unlink_loop paths fs).2 ⊆ fs
  /\ (forall p, p ∉ paths -> (unlink_loop paths fs).2 !! p = fs !! p)
  /\ (forall p, (forall c, fs !! p <> Some (RegularFile c)) ->
        (unlink_loop paths fs).2 !! p = fs !! p)
  /\ match (unlink_loop paths fs).1 with
     | Returned _ =>
         (forall p c, p ∈ paths -> (unlink_loop paths fs).2 !! p <> Some (RegularFile c))
         /\ (forall p c, p ∈ paths -> fs !! p = Some (RegularFile c) -> unlink p = Returned tt)
     | Raised e =>
         exists p c, p ∈ paths /\ (unlink_loop paths fs).2 !! p = Some (RegularFile c)
                     /\ unlink p = Raised e
     end.
Proof.
  revert fs. induction paths as [|p rest IH]; intros fs.
  - simpl. split_conj; try done.
    + intros p c Hp. by apply elem_of_nil in Hp.
    + intros p c Hp. by apply elem_of_nil in Hp.
  - assert (forall fs0 : gmap str node,
              (forall c, fs0 !! p <> Some (RegularFile c)) ->
              unlink_loop (p :: rest) fs0 = unlink_loop rest fs0) as Hskip.
    { intros fs0 Hn. simpl. destruct (fs0 !! p) as [[c|]|] eqn:Hp; [by destruct (Hn c)|done|done]. }
    destruct (fs !! p) as [[c|]|] eqn:Hp.
    + simpl. rewrite Hp. destruct (unlink p) as [[]|e] eqn:Hu.
      * destruct (IH (delete p fs)) as [Hsub [Hout [Hdir Hres]]].
        assert ((unlink_loop rest (delete p fs)).2 !! p = None) as Hgone.
        { destruct ((unlink_loop rest (delete p fs)).2 !! p) as [x|] eqn:Hx; [|done].
          eapply lookup_weaken in Hx; [|exact Hsub]. by rewrite lookup_delete_eq in Hx. }
        split_conj.
        -- etrans; [exact Hsub|apply delete_subseteq].
        -- intros q Hq. apply not_elem_of_cons in Hq as [Hne Hq].
           rewrite Hout by done. by apply lookup_delete_ne.
        -- intros q Hq. assert (p <> q) as Hne by (intros ->; by destruct (Hq c)).
           rewrite Hdir; rewrite lookup_delete_ne by done; done.
        -- destruct ((unlink_loop rest (delete p fs)).1) as [u|e].
           ++ destruct Hres as [Hnone Hok]. split.
              ** intros q c' Hq. apply elem_of_cons in Hq as [->|Hq]; [by rewrite Hgone|].
                 by apply Hnone.
              ** intros q c' Hq Hqf. destruct (decide (q = p)) as [->|Hne]; [done|].
                 apply elem_of_cons in Hq as [?|Hq]; [done|].
                 apply (Hok q c' Hq). by rewrite lookup_delete_ne.
           ++ destruct Hres as [q [c' [Hq [Hqf Hqu]]]]. exists q, c'.
              split; [by apply list_elem_of_further|done].
      * cbn [fst snd]. split_conj; try done. exists p, c. split; [apply list_elem_of_here|done].
    + rewrite Hskip by (intros c; by rewrite Hp).
      destruct (IH fs) as [Hsub [Hout [Hdir Hres]]]. split_conj; try done.
      * intros q Hq. apply not_elem_of_cons in Hq as [_ Hq]. by apply Hout.
      * destruct ((unlink_loop rest fs).1) as [u|e].
        -- destruct Hres as [Hnone Hok]. split.
           ++ intros q c Hq. apply elem_of_cons in Hq as [->|Hq]; [|by apply Hnone].
              rewrite Hdir; rewrite Hp; done.
           ++ intros q c Hq Hqf. apply elem_of_cons in Hq as [->|Hq]; [congruence|].
              by apply (Hok q c).
        -- destruct Hres as [q [c [Hq Hrest]]]. exists q, c.
           split; [by apply list_elem_of_further|done].
    + rewrite Hskip by (intros c; by rewrite Hp).
      destruct (IH fs) as [Hsub [Hout [Hdir Hres]]]. split_conj; try done.
      * intros q Hq. apply not_elem_of_cons in Hq as [_ Hq]. by apply Hout.
      * destruct ((unlink_loop rest fs).1) as [u|e].
        -- destruct Hres as [Hnone Hok]. split.
           ++ intros q c Hq. apply elem_of_cons in Hq as [->|Hq]; [|by apply Hnone].
              rewrite Hdir; rewrite Hp; done.
           ++ intros q c Hq Hqf. apply elem_of_cons in Hq as [->|Hq]; [congruence|].
              by apply (Hok q c).
        -- destruct Hres as [q [c [Hq Hrest]]]. exists q, c.
           split; [by apply list_elem_of_further|done].
Qed.

(** The clearing of the store by the handler, once the object is there. *)
Lemma with_rag_clear_cases (a : app) :
  (exists e, with_rag clear a = (Raised e, a) /\ rag_system a = None
             /\ embedding_dimension = Raised e)
  \/ (exists a', with_rag clear a = (Returned tt, a')
                 /\ stored_records a' = [] /\ stored_vectors a' = []
                 /\ health_check a' = 0
                 /\ snapshot_disk a' = snapshot_disk a /\ files a' = files a
                 /\ (is_Some (rag_system a) \/ exists dim, embedding_dimension = Returned dim)).
Proof.
  unfold with_rag, get_rag_system.
  destruct a as [[rag|] dk fs]; cbn [rag_system snapshot_disk files].
  - right. unfold on_rag. rewrite clear_result. cbn [fst snd]. eexists. split; [done|].
    split_conj; try done. left. by eexists.
  - destruct embedding_dimension as [dim|e] eqn:Hd.
    + right. unfold on_rag. rewrite clear_result. cbn [fst snd]. eexists. split; [done|].
      split_conj; try done. right. by eexists.
    + left. by exists e.
Qed.

(** X25. When [DELETE /clear] answers, no record and no vector is left,
    the health endpoint counts 0, no file of the upload directory remains,
    its directories and every path outside it being as they were. The
    request answers exactly when the object exists or can be constructed,
    the upload directory can be listed and every file in it can be
    deleted. A failure is a 500: either the object cannot be constructed
    and nothing has changed, or the store has been emptied all the same
    and the listing or a deletion raised, the file that could not be
    deleted still being there, no file added and the paths outside the
    upload directory as they were. *)
Theorem clear_endpoint_effect (a : app) :
  match (clear_knowledge_base a).1 with
  | Response remaining =>
      remaining = 0
      /\ stored_records (clear_knowledge_base a).2 = []
      /\ stored_vectors (clear_knowledge_base a).2 = []
      /\ health_check (clear_knowledge_base a).2 = 0
      /\ (forall p, in_upload_dir p = true ->
            files (clear_knowledge_base a).2 !! p
            = match files a !! p with
              | Some DirectoryNode => Some DirectoryNode
              | _ => None
              end)
      /\ (forall p, in_upload_dir p = false ->
            files (clear_knowledge_base a).2 !! p = files a !! p)
  | HTTPException status =>
      status = 500
      /\ ((rag_system a = None /\ (exists e, embedding_dimension = Raised e)
           /\ (clear_knowledge_base a).2 = a)
          \/ (stored_records (clear_knowledge_base a).2 = []
              /\ stored_vectors (clear_knowledge_base a).2 = []
              /\ health_check (clear_knowledge_base a).2 = 0
              /\ (((exists e, listdir_upload_dir = Raised e)
                   /\ files (clear_knowledge_base a).2 = files a)
                  \/ (exists p c e,
                        in_upload_dir p = true
                        /\ files (clear_knowledge_base a).2 !! p = Some (RegularFile c)
                        /\ unlink p = Raised e))
              /\ files (clear_knowledge_base a).2 ⊆ files a
              /\ (forall p, in_upload_dir p = false ->
                    files (clear_knowledge_base a).2 !! p = files a !! p)))
  end
  /\ ((exists remaining, (clear_knowledge_base a).1 = Response remaining)
      <-> (is_Some (rag_system a) \/ exists dim, embedding_dimension = Returned dim)
          /\ listdir_upload_dir = Returned tt
          /\ (forall p c, in_upload_dir p = true -> files a !! p = Some (RegularFile c) ->
                unlink p = Returned tt)).
Proof.
  unfold clear_knowledge_base.
  destruct (with_rag_clear_cases a)
    as [[e [-> [Hr Hd]]]|[a' [-> [Hsr [Hsv [Hh [Hdk [Hf Hobj]]]]]]]].
  { cbn [fst snd]. split.
    - split; [done|]. left. split_conj; [done|by exists e|done].
    - split; [by intros [n ?]|]. rewrite Hr, Hd. intros [[[rag ?]|[dim ?]] _]; done. }
  destruct listdir_upload_dir as [[]|e] eqn:Hls.
  2:{ cbn [fst snd]. split.
      - split; [done|]. right. split_conj; [done|done|done| |by rewrite Hf|by rewrite Hf].
        left. split; [by exists e|done].
      - split; [by intros [n ?]|]. by intros [_ [? _]]. }
  destruct (unlink_loop_result (iterdir (files a')) (files a')) as [Hsub [Hout [Hdir Hres]]].
  assert (forall p, in_upload_dir p = false ->
            (unlink_loop (iterdir (files a')) (files a')).2 !! p = files a !! p) as Hframe.
  { intros p Hp. rewrite Hout; [by rewrite Hf|].
    rewrite elem_of_iterdir. intros [Hin _]. congruence. }
  destruct (unlink_loop (iterdir (files a')) (files a')) as [[u|e] fs'] eqn:Hl;
    cbn [fst snd rag_system files snapshot_disk] in *.
  - destruct Hres as [Hnone Hok]. split.
    + unfold stored_records, stored_vectors, health_check in *.
      cbn [rag_system files] in *. split_conj; try done.
      intros p Hp. rewrite <- Hf. destruct (files a' !! p) as [[c|]|] eqn:Hx.
      * destruct (fs' !! p) as [[c'|]|] eqn:Hy; [|by apply (lookup_weaken _ _ _ _ Hy) in Hsub; congruence|done].
        exfalso. apply (Hnone p c'); [|done]. apply elem_of_iterdir. by rewrite Hx.
      * rewrite Hdir; [done|]. intros c. by rewrite Hx.
      * rewrite Hdir; [done|]. intros c. by rewrite Hx.
    + split; [intros _|by eexists]. split_conj; [done|done|].
      intros p c Hp Hx. apply (Hok p c); [|by rewrite Hf].
      apply elem_of_iterdir. rewrite Hf, Hx. by split.
  - destruct Hres as [p [c [Hp [Hx Hu]]]]. apply elem_of_iterdir in Hp as [Hp _]. split.
    + split; [done|]. right.
      unfold stored_records, stored_vectors, health_check in *.
      cbn [rag_system files] in *. split_conj; try done.
      * right. by exists p, c, e.
      * by rewrite <- Hf.
    + split; [by intros [n ?]|]. intros [_ [_ Hall]].
      assert (files a !! p = Some (RegularFile c)) as Hpa
        by (rewrite <- Hf; by eapply lookup_weaken).
      rewrite (Hall p c Hp Hpa) in Hu. done.
Qed.

End EndpointFacts.

(** * Instances of the further properties *)

Section FurtherInstances.
Import PyStr DocumentParser.

Lemma query_on_empty_store_witness :
  query (H := Sample.backends) (py "anything") 3 (init 500 50 2 (py "openai") None, ∅)
  = (Returned {| answer := no_information; sources := [] |},
     (init 500 50 2 (py "openai") None, ∅)).
Proof.
  apply (query_on_empty_store (H := Sample.backends) (py "anything") 3
           (init 500 50 2 (py "openai") None, ∅)).
  reflexivity.
Defined.

Lemma retrieve_returns_stored_records_witness :
  Forall (fun r => doc r ∈ Sample.stored)
         [ {| doc := {| text := py "Gamma"; source := py "b.txt"; chunk_id := 0 |};
              score := 16 |} ]
  /\ 1 <= Z.max 0 1
  /\ (1 <= 2)%nat.
Proof.
  apply (retrieve_returns_stored_records (H := Sample.backends) (py "q") 1
           [ {| doc := {| text := py "Gamma"; source := py "b.txt"; chunk_id := 0 |};
                score := 16 |} ]
           (Sample.loaded, ∅) (Sample.loaded, ∅)).
  vm_compute. reflexivity.
Defined.

Lemma add_document_failure_changes_nothing_witness :
  add_document (H := Sample.backends) (py "Hello.") (py "x.txt")
    (init 500 50 3 (py "openai") None, ∅)
  = (Raised (Exn "DimensionMismatchError"), (init 500 50 3 (py "openai") None, ∅))
  /\ (init 500 50 3 (py "openai") None, (∅ : disk))
     = (init 500 50 3 (py "openai") None, ∅).
Proof.
  assert (add_document (H := Sample.backends) (py "Hello.") (py "x.txt")
            (init 500 50 3 (py "openai") None, ∅)
          = (Raised (Exn "DimensionMismatchError"), (init 500 50 3 (py "openai") None, ∅)))
    as Hraise by (vm_compute; reflexivity).
  split; [exact Hraise|].
  exact (add_document_failure_changes_nothing (H := Sample.backends) (py "Hello.") (py "x.txt")
           (Exn "DimensionMismatchError") _ _ Hraise).
Defined.

Lemma add_document_appends_numbered_records_witness :
  let w := (Sample.loaded, (∅ : disk)) in
  let w' := (add_document (H := Sample.backends) (py "Hello there. General") (py "x.txt") w).2 in
  let chunks := chunk_text (py "Hello there. General") 500 50 in
  exists new,
    documents w'.1 = documents w.1 ++ new
    /\ map text new = chunks
    /\ Forall (fun d => source d = py "x.txt") new
    /\ map chunk_id new = seqZ 0 (Z.of_nat (length chunks))
    /\ faiss.ntotal (index w'.1) = faiss.ntotal (index w.1) + Z.of_nat (length chunks)
    /\ faiss.d (index w'.1) = faiss.d (index w.1)
    /\ (chunk_size w'.1, chunk_overlap w'.1, embedding_dim w'.1)
       = (chunk_size w.1, chunk_overlap w.1, embedding_dim w.1)
    /\ w'.2 = w.2.
Proof.
  intros w w'.
  apply (add_document_appends_numbered_records (H := Sample.backends)
           (py "Hello there. General") (py "x.txt") w w').
  vm_compute. reflexivity.
Defined.

Lemma add_document_count_and_sources_witness :
  let w := (Sample.loaded, (∅ : disk)) in
  let w' := (add_document (H := Sample.backends) (py "Hello there. General") (py "x.txt") w).2 in
  let chunks := chunk_text (py "Hello there. General") 500 50 in
  exists n srcs n' srcs',
    (get_document_count w).1 = Returned n /\ (list_documents w).1 = Returned srcs
    /\ (get_document_count w').1 = Returned n' /\ (list_documents w').1 = Returned srcs'
    /\ n' = n + Z.of_nat (length chunks)
    /\ srcs ⊆ srcs'
    /\ (chunks <> [] -> py "x.txt" ∈ srcs').
Proof.
  intros w w'.
  apply (add_document_count_and_sources (H := Sample.backends)
           (py "Hello there. General") (py "x.txt") w w').
  vm_compute. reflexivity.
Defined.

Lemma load_index_incomplete_snapshot_witness :
  exists w',
    load_index (py "faiss_index")
      (Sample.loaded, {[ py "faiss_index" := Dir (Some (faiss.Index 2 [[7; 7]])) None ]})
    = (Raised (Exn "FileNotFoundError"), w')
    /\ index w'.1 = faiss.Index 2 [[7; 7]]
    /\ documents w'.1 = Sample.stored
    /\ w'.2 = {[ py "faiss_index" := Dir (Some (faiss.Index 2 [[7; 7]])) None ]}.
Proof.
  assert (({[ py "faiss_index" := Dir (Some (faiss.Index 2 [[7; 7]])) None ]} : disk)
            !! py "faiss_index"
          = Some (Dir (Some (faiss.Index 2 [[7; 7]])) None)) as Hdir
    by apply lookup_singleton_eq.
  exact (load_index_incomplete_snapshot (py "faiss_index")
           (Dir (Some (faiss.Index 2 [[7; 7]])) None) (faiss.Index 2 [[7; 7]])
           (Sample.loaded, {[ py "faiss_index" := Dir (Some (faiss.Index 2 [[7; 7]])) None ]})
           Hdir eq_refl eq_refl).
Defined.

Lemma in_sync_through_snapshots_witness :
  let s := (execute_commands (H := Sample.backends)
              [Mutation (Ingest (py "aaaa bbbb cccc") (py "b.txt")); Save (py "snap");
               Mutation ClearAll; Load (py "snap"); Load (py "nowhere")]
              (init 6 1 2 (py "openai") None, ∅)).1 in
  Z.of_nat (length (documents s)) = faiss.ntotal (index s).
Proof.
  apply (in_sync_through_snapshots (H := Sample.backends) 6 1 2 (py "openai") None ∅).
  apply map_Forall_empty.
Defined.

Lemma positive_chunk_size_window_witness :
  0 < chunk_end (py "aaaa bbbb cccc") 6 0 <= 0 + 6
  /\ next_start (py "aaaa bbbb cccc") 6 1 0 (chunk_end (py "aaaa bbbb cccc") 6 0)
     = if chunk_end (py "aaaa bbbb cccc") 6 0 <? len (py "aaaa bbbb cccc")
       then chunk_end (py "aaaa bbbb cccc") 6 0 - 1 else len (py "aaaa bbbb cccc").
Proof.
  apply (positive_chunk_size_window (py "aaaa bbbb cccc") 6 1 0).
  - lia.
  - change (len (py "aaaa bbbb cccc")) with 14. lia.
Defined.

Lemma zero_overlap_keeps_visible_text_witness :
  visible (concat (chunk_text (py "abcd efgh  ij") 6 0)) = visible (py "abcd efgh  ij")
  /\ chunk_text_iterations (py "abcd efgh  ij") 6 0 <= len (py "abcd efgh  ij").
Proof.
  apply (zero_overlap_keeps_visible_text (py "abcd efgh  ij") 6).
  - lia.
  - change (len (py "abcd efgh  ij")) with 13. unfold max_iterations. lia.
Defined.

Lemma whitespace_free_text_windows_witness :
  exists n,
    chunk_text_iterations (py "abcdefghijklmnopqrstuvwxyz") 10 4 = n
    /\ 0 <= n <= step_bound (len (py "abcdefghijklmnopqrstuvwxyz")) 10 4 0
    /\ chunk_text (py "abcdefghijklmnopqrstuvwxyz") 10 4
       = map (fun i => slice (py "abcdefghijklmnopqrstuvwxyz") (i * (10 - 4)) (i * (10 - 4) + 10))
             (seqZ 0 n)
    /\ (step_bound (len (py "abcdefghijklmnopqrstuvwxyz")) 10 4 0 <= max_iterations ->
        join_overlapping 4 (chunk_text (py "abcdefghijklmnopqrstuvwxyz") 10 4)
        = py "abcdefghijklmnopqrstuvwxyz").
Proof.
  apply (whitespace_free_text_windows (py "abcdefghijklmnopqrstuvwxyz") 10 4).
  - repeat constructor.
  - unfold valid_configuration. lia.
Defined.

Lemma application_keeps_index_and_store_in_sync_witness :
  Z.of_nat (length (documents SampleApp.after_notes))
  = faiss.ntotal (index SampleApp.after_notes).
Proof.
  apply (application_keeps_index_and_store_in_sync
           (H := Sample.backends) (H0 := SampleApp.readers) (H1 := SampleApp.deployment)
           ∅ ∅
           [PostUpload [SampleApp.notes]; PostQuery (py "alpha") 1; GetHealth; GetDocuments]
           SampleApp.after_notes).
  vm_compute. reflexivity.
Defined.

Lemma upload_answers_despite_failing_documents_witness :
  (upload_documents (H := Sample.backends) (H0 := SampleApp.text_layer_readers)
     (H1 := SampleApp.deployment) [SampleApp.scan; SampleApp.notes] SampleApp.fresh).1
  = Response {| processed := 2;
                uploaded_files := [UploadError (py "scan.pdf");
                                   UploadSuccess (py "notes.txt") 1];
                total_documents := 1 |}
  /\ exists body a',
       upload_documents (H := Sample.backends) (H0 := SampleApp.text_layer_readers)
         (H1 := SampleApp.deployment) [SampleApp.scan; SampleApp.notes] SampleApp.fresh
       = (Response body, a')
       /\ map entry_filename (uploaded_files body)
          = map filename [SampleApp.scan; SampleApp.notes]
       /\ processed body = Z.of_nat (length [SampleApp.scan; SampleApp.notes])
       /\ total_documents body = Z.of_nat (length (stored_records a'))
       /\ files a'
          = foldl (fun m f => <[upload_path (Deployment := SampleApp.deployment) (filename f)
                                := RegularFile (file f)]> m)
                  (files SampleApp.fresh) [SampleApp.scan; SampleApp.notes].
Proof.
  split; [vm_compute; reflexivity|].
  apply (upload_answers_despite_failing_documents
           (H := Sample.backends) (H0 := SampleApp.text_layer_readers)
           (H1 := SampleApp.deployment) [SampleApp.scan; SampleApp.notes] SampleApp.fresh).
  - apply Forall_cons. split; [reflexivity|].
    apply Forall_cons. split; [reflexivity|]. constructor.
  - apply Forall_cons. split; [split; [vm_compute; discriminate|reflexivity]|].
    apply Forall_cons. split; [split; [vm_compute; discriminate|reflexivity]|]. constructor.
  - right. exists 2. reflexivity.
Defined.

(** A deletion that fails: the answer is 500, the store has been emptied
    all the same and the file is still there. *)
Lemma clear_with_failing_deletion :
  let a := App (Some SampleApp.after_notes) ∅
               {[ py "uploads/notes.txt" := RegularFile (file SampleApp.notes) ]} in
  let r := clear_knowledge_base (H1 := SampleApp.read_only_deployment) a in
  r.1 = HTTPException 500 /\ stored_records r.2 = [] /\ stored_vectors r.2 = []
  /\ files r.2 = files a.
Proof. intros a r. split_conj; vm_compute; reflexivity. Qed.

Lemma upload_of_one_file_witness :
  let r := upload_one (H := Sample.backends) (H0 := SampleApp.readers)
             (H1 := SampleApp.deployment) SampleApp.notes SampleApp.fresh in
  files r.2
  = <[py "uploads/notes.txt" := RegularFile (file SampleApp.notes)]> (files SampleApp.fresh)
  /\ py "notes.txt" = filename SampleApp.notes
  /\ exists new vs,
       stored_records r.2 = stored_records SampleApp.fresh ++ new
       /\ stored_vectors r.2 = stored_vectors SampleApp.fresh ++ vs
       /\ length vs = length new
       /\ Forall (fun d => source d = filename SampleApp.notes) new.
Proof.
  intros r.
  apply (upload_of_one_file
           (H := Sample.backends) (H0 := SampleApp.readers) (H1 := SampleApp.deployment)
           SampleApp.notes SampleApp.fresh r.2 (UploadSuccess (py "notes.txt") 1)).
  vm_compute. reflexivity.
Defined.

End FurtherInstances.

(** * Properties of answer synthesis *)

Section SynthesisFacts.
Import PyStr.

Lemma part_refl (c : str) : contiguous_part c c.
Proof. exists [], []. by rewrite app_nil_r. Qed.

Lemma part_app_l (c a b : str) : contiguous_part c a -> contiguous_part c (a ++ b).
Proof. intros [p [q ->]]. exists p, (q ++ b). by rewrite <- !app_assoc. Qed.

Lemma part_app_r (c a b : str) : contiguous_part c b -> contiguous_part c (a ++ b).
Proof. intros [p [q ->]]. exists (a ++ p), q. by rewrite <- !app_assoc. Qed.

Lemma part_join (c sep : str) parts x :
  x ∈ parts -> contiguous_part c x -> contiguous_part c (join sep parts).
Proof.
  induction parts as [|p parts IH]; [by intros ?%elem_of_nil|].
  intros [->|Hin]%elem_of_cons Hc; simpl.
  - destruct parts; [done|]. by apply part_app_l.
  - destruct parts as [|p' parts']; [by apply elem_of_nil in Hin|].
    apply part_app_r, part_app_r. by apply IH.
Qed.

End SynthesisFacts.

(** Looks for the part among the pieces of a concatenation. *)
Ltac find_part :=
  first [ apply part_refl
        | assumption
        | apply part_app_l; first [apply part_refl | assumption]
        | apply part_app_r; find_part ].

Section SynthesisClaims.
Context `{Backends}.
Import PyStr.

(** X26. Without a configured backend the answer does not depend on any
    external service: when the provider is neither [openai] nor
    [huggingface], or is [huggingface] without a client, [synthesize_answer]
    returns the extractive fallback for every non-empty context. *)
Theorem synthesize_answer_without_backend q context_docs (w : world) :
  context_docs <> [] ->
  llm_provider w.1 <> py "openai" ->
  (llm_provider w.1 = py "huggingface" -> hf_client w.1 = None) ->
  synthesize_answer q context_docs w = (Returned (_fallback_answer q context_docs), w).
Proof.
  intros Hne Ho Hh. destruct w as [s dk]. cbn [fst] in *.
  destruct context_docs as [|sd rest]; [done|].
  unfold synthesize_answer, try_except, bind, self, call, ret. cbn [fst snd].
  destruct (decide (llm_provider s = py "openai")); [done|].
  destruct (decide (llm_provider s = py "huggingface")) as [Hp|]; [|done].
  by rewrite (Hh Hp).
Qed.

(** X27. The prompt grounds the answer: it holds the question, and for
    every retrieved record its full text and its source, each as a run of
    consecutive characters. *)
Theorem prompt_holds_question_and_context q context_docs :
  contiguous_part q (build_prompt q context_docs)
  /\ Forall (fun sd => contiguous_part (text (doc sd)) (build_prompt q context_docs)
                       /\ contiguous_part (source (doc sd)) (build_prompt q context_docs))
            context_docs.
Proof.
  split.
  - unfold build_prompt. find_part.
  - apply Forall_forall. intros sd Hin.
    assert (context_block sd ∈ map context_block context_docs) as Hb
      by (by apply list_elem_of_fmap_2).
    split.
    + assert (contiguous_part (text (doc sd))
                (join (nl ++ nl) (map context_block context_docs))) as Hj.
      { apply (part_join _ _ _ _ Hb). unfold context_block. find_part. }
      unfold build_prompt. find_part.
    + assert (contiguous_part (source (doc sd))
                (join (nl ++ nl) (map context_block context_docs))) as Hj.
      { apply (part_join _ _ _ _ Hb). unfold context_block. find_part. }
      unfold build_prompt. find_part.
Qed.

Lemma fallback_items_quote i context_docs sd :
  sd ∈ context_docs ->
  contiguous_part (source (doc sd)) (fallback_items i context_docs)
  /\ contiguous_part (prefix (text (doc sd)) 300) (fallback_items i context_docs).
Proof.
  revert i. induction context_docs as [|sd' rest IH]; intros i;
    [by intros ?%elem_of_nil|].
  intros [->|Hin]%elem_of_cons; cbn [fallback_items].
  - split; [find_part|].
    do 5 apply part_app_r. apply part_app_l.
    destruct (Z.ltb_spec 300 (len (text (doc sd')))); [by apply part_app_l, part_refl|].
    unfold prefix. rewrite slice_whole by done. apply part_refl.
  - destruct (IH (i + 1) Hin) as [Hs Ht].
    split; do 8 apply part_app_r; done.
Qed.

(** X28. The extractive fallback quotes every retrieved record: the
    answer holds the record's source and the first 300 characters of its
    text, the whole text when it has no more. *)
Theorem fallback_answer_quotes_every_record q context_docs :
  Forall (fun sd =>
            contiguous_part (source (doc sd)) (_fallback_answer q context_docs)
            /\ contiguous_part (prefix (text (doc sd)) 300) (_fallback_answer q context_docs)
            /\ (len (text (doc sd)) <= 300 -> prefix (text (doc sd)) 300 = text (doc sd)))
         context_docs.
Proof.
  apply Forall_forall. intros sd Hin.
  destruct (fallback_items_quote 1 context_docs sd Hin) as [Hs Ht].
  unfold _fallback_answer. split_conj.
  - by do 3 apply part_app_r.
  - by do 3 apply part_app_r.
  - intros Hl. by apply slice_whole.
Qed.

End SynthesisClaims.

Section Stall.
Import PyStr DocumentParser.

(** X29. Once an iteration puts the cursor back where it was, the loop
    makes no progress any more: every later iteration takes the same
    window, and the loop ends only at the cap of 10000 iterations, with
    the chunk of that window (when it is not empty) appended once per
    remaining iteration. *)
Theorem stalled_cursor_runs_to_the_cap text cs ov st fuel :
  loop_guard text st = true ->
  0 <= iteration_count st ->
  next_start text cs ov (start st) (chunk_end text cs (start st)) = start st ->
  (Z.to_nat (max_iterations - iteration_count st) < fuel)%nat ->
  let c := strip (slice text (start st) (chunk_end text cs (start st))) in
  chunk_loop fuel text cs ov st
  = Some {| start := start st;
            iteration_count := max_iterations;
            chunks := chunks st
                      ++ (if truthy c
                          then replicate (Z.to_nat (max_iterations - iteration_count st)) c
                          else []) |}.
Proof.
  intros Hg Hc Hnext Hf c.
  pose proof (guard_start _ _ Hg) as Hs.
  assert (iteration_count st < max_iterations) as Hlt.
  { unfold loop_guard in Hg. apply andb_true_iff in Hg as [_ Hg]. by apply Z.ltb_lt. }
  destruct st as [s count chs]. cbn [start iteration_count chunks] in *.
  clear Hg. revert count chs Hc Hlt Hf.
  induction fuel as [|fuel IH]; intros count chs Hc Hlt Hf; [lia|].
  cbn [chunk_loop]. unfold loop_guard. cbn [start iteration_count].
  destruct (Z.ltb_spec s (len text)); [|lia].
  destruct (Z.ltb_spec count max_iterations); [|lia]. cbn [andb].
  unfold chunk_step. cbn [start iteration_count chunks]. rewrite Hnext. fold c.
  destruct (decide (count + 1 = max_iterations)) as [Hlast|Hmore].
  - rewrite chunk_loop_exit.
    + rewrite Hlast. f_equal. f_equal.
      replace (Z.to_nat (max_iterations - count)) with 1%nat by lia.
      destruct (truthy c); [done|by rewrite app_nil_r].
    + unfold loop_guard. cbn [start iteration_count]. rewrite Hlast.
      rewrite Z.ltb_irrefl. by destruct (s <? len text).
  - rewrite IH by lia. f_equal. f_equal.
    replace (Z.to_nat (max_iterations - count))
      with (S (Z.to_nat (max_iterations - (count + 1)))) by lia.
    destruct (truthy c); [|by rewrite !app_nil_r]. simpl. by rewrite <- app_assoc.
Qed.

End Stall.

Section DocumentsEndpoint.
Context `{Backends} `{Readers} `{Deployment}.

Lemma size_list_to_set_le (l : list str) :
  (size (list_to_set l : gset str) <= length l)%nat.
Proof.
  induction l as [|x l IH]; [by rewrite list_to_set_nil, size_empty|].
  rewrite list_to_set_cons, size_union_alt, size_singleton. simpl.
  assert (size (list_to_set l ∖ {[x]} : gset str) <= size (list_to_set l : gset str))%nat
    by (apply subseteq_size, subseteq_difference_l; done).
  lia.
Qed.

(** X30. [GET /documents] counts sources, not chunks: when it answers, the
    listed sources are exactly the sources of the stored records, each
    once, the total is their number, which is at most the number of
    records, and the records and vectors are as before the request. *)
Theorem documents_endpoint_lists_sources (a a' : app) total srcs :
  list_documents_endpoint a = (Response (total, srcs), a') ->
  total = Z.of_nat (size srcs)
  /\ (forall s, s ∈ srcs <-> exists d, d ∈ stored_records a /\ source d = s)
  /\ total <= Z.of_nat (length (stored_records a))
  /\ stored_records a' = stored_records a
  /\ stored_vectors a' = stored_vectors a.
Proof.
  unfold list_documents_endpoint, with_rag.
  destruct (get_rag_system_cases a)
    as [[e [-> _]]|[rag [a1 [-> [Hr [Hd [Hf [Hsr Hsv]]]]]]]]; [done|].
  unfold on_rag, list_documents, bind, self, ret. cbn [fst snd].
  intros [= <- <- <-].
  assert (stored_records a = documents rag) as Hdocs
    by (rewrite <- Hsr; unfold stored_records; by rewrite Hr).
  assert (stored_vectors a = faiss.xb (index rag)) as Hvecs
    by (rewrite <- Hsv; unfold stored_vectors; by rewrite Hr).
  rewrite Hdocs, Hvecs. split_conj; try done.
  - intros s. rewrite elem_of_list_to_set, list_elem_of_fmap.
    split; intros [d [Hd1 Hd2]]; exists d; by split.
  - pose proof (size_list_to_set_le (map source (documents rag))) as Hle.
    rewrite length_map in Hle. lia.
Qed.

End DocumentsEndpoint.

Section MoreInstances.
Import PyStr DocumentParser.

Lemma synthesize_answer_without_backend_witness :
  synthesize_answer (H := Sample.backends) (py "What is alpha?") Sample.context
    (init 500 50 2 (py "none") None, ∅)
  = (Returned (_fallback_answer (py "What is alpha?") Sample.context),
     (init 500 50 2 (py "none") None, ∅)).
Proof.
  apply (synthesize_answer_without_backend (H := Sample.backends)
           (py "What is alpha?") Sample.context (init 500 50 2 (py "none") None, ∅)).
  - discriminate.
  - discriminate.
  - discriminate.
Defined.

Lemma stalled_cursor_runs_to_the_cap_witness :
  chunk_loop enough_fuel Sample.stalling_text 500 50 initial_state
  = Some {| start := 0;
            iteration_count := max_iterations;
            chunks := [] ++ (if truthy (strip (slice Sample.stalling_text 0
                                                 (chunk_end Sample.stalling_text 500 0)))
                             then replicate (Z.to_nat (max_iterations - 0))
                                    (strip (slice Sample.stalling_text 0
                                              (chunk_end Sample.stalling_text 500 0)))
                             else []) |}.
Proof.
  apply (stalled_cursor_runs_to_the_cap Sample.stalling_text 500 50 initial_state enough_fuel).
  - vm_compute. reflexivity.
  - simpl. lia.
  - vm_compute. reflexivity.
  - unfold enough_fuel. simpl iteration_count. lia.
Defined.

Lemma documents_endpoint_lists_sources_witness :
  let a := App (Some SampleApp.after_notes) ∅ ∅ in
  1 = Z.of_nat (size (list_to_set [py "notes.txt"] : gset str))
  /\ (forall s, s ∈ (list_to_set [py "notes.txt"] : gset str)
                <-> exists d, d ∈ stored_records a /\ source d = s)
  /\ 1 <= Z.of_nat (length (stored_records a))
  /\ stored_records a = stored_records a
  /\ stored_vectors a = stored_vectors a.
Proof.
  intros a.
  apply (documents_endpoint_lists_sources (H1 := SampleApp.deployment) a a 1
           (list_to_set [py "notes.txt"])).
  reflexivity.
Defined.

End MoreInstances.
